(** * Surface-distance margins (qam/margin.py): model and properties

    A shallow embedding of [compute_bounding_box], [crop_mask],
    [compute_distances] and [summarize_surface_dists], together with the
    parts of numpy and scipy.ndimage they call.

    Conventions of the model.
    - A 3-D numpy array is a nested list in C order ([vol A]); it is read
      with [get] and built with [tabulate].
    - A float64 is a [float]: a real number, one of the two infinities, or
      not-a-number.  Rounding and overflow of finite values are not
      modelled: finite arithmetic is the arithmetic of [R].
    - A Python exception is an [Err] result. *)

From Stdlib Require Import List ZArith Bool Reals Lra Lia Permutation FinFun.
Import ListNotations.

Open Scope Z_scope.

(** ** Results of fallible code *)

Inductive exn : Type :=
| ValueError          (* numpy: reduction of a zero-size array *)
| UnboundLocalError.  (* a local variable read before assignment *)

Inductive result (A : Type) : Type :=
| Ok (a : A)
| Err (e : exn).
Arguments Ok {A} a.
Arguments Err {A} e.

Definition bind {A B} (m : result A) (k : A -> result B) : result B :=
  match m with
  | Ok a => k a
  | Err e => Err e
  end.

Notation "x <- m ;; k" := (bind m (fun x => k))
  (at level 61, m at next level, right associativity).
Notation "' p <- m ;; k" := (bind m (fun x => match x with p => k end))
  (at level 61, p pattern, m at next level, right associativity).

(** ** float64 values *)

Inductive float : Type :=
| Fin (r : R)
| PInf
| NInf
| NaN.

Definition Rltb (a b : R) : bool := if Rlt_dec a b then true else false.
Definition Rleb (a b : R) : bool := if Rle_dec a b then true else false.

(** [x < c] and [x >= c] for a float [x] and a finite constant [c];
    every comparison with not-a-number is false. *)
Definition flt (x : float) (c : R) : bool :=
  match x with
  | Fin r => Rltb r c
  | PInf => false
  | NInf => true
  | NaN => false
  end.

Definition fge (x : float) (c : R) : bool :=
  match x with
  | Fin r => Rleb c r
  | PInf => true
  | NInf => false
  | NaN => false
  end.

(** Product of a float and an int8 cell (the cell is converted to float64). *)
Definition fmul_int (x : float) (m : Z) : float :=
  match x with
  | Fin r => Fin (r * IZR m)
  | PInf => if 0 <? m then PInf else if m <? 0 then NInf else NaN
  | NInf => if 0 <? m then NInf else if m <? 0 then PInf else NaN
  | NaN => NaN
  end.

(** [np.fmin] and [np.fmax]: the other operand wins over not-a-number. *)
Definition fmin (x y : float) : float :=
  match x, y with
  | NaN, _ => y
  | _, NaN => x
  | NInf, _ | _, NInf => NInf
  | PInf, _ => y
  | _, PInf => x
  | Fin a, Fin b => Fin (Rmin a b)
  end.

Definition fmax (x y : float) : float :=
  match x, y with
  | NaN, _ => y
  | _, NaN => x
  | PInf, _ | _, PInf => PInf
  | NInf, _ => y
  | _, NInf => x
  | Fin a, Fin b => Fin (Rmax a b)
  end.

(** ** numpy arrays *)

Module np.

Definition idx : Type := (Z * Z * Z)%type.
Definition vol (A : Type) : Type := list (list (list A)).

Definition shape {A} (v : vol A) : nat * nat * nat :=
  (length v, length (hd [] v), length (hd [] (hd [] v))).

(** Rectangular nested lists: the only ones numpy can hold. *)
Definition has_shape {A} (v : vol A) (sh : nat * nat * nat) : Prop :=
  let '(n0, n1, n2) := sh in
  length v = n0 /\
  Forall (fun p => length p = n1 /\ Forall (fun r => length r = n2) p) v.

Definition nthZ {A} (d : A) (l : list A) (i : Z) : A :=
  if i <? 0 then d else nth (Z.to_nat i) l d.

(** [v[i, j, k]], with [d] outside the array. *)
Definition get {A} (d : A) (v : vol A) (p : idx) : A :=
  let '(i, j, k) := p in nthZ d (nthZ [] (nthZ [] v i) j) k.

Definition range (n : nat) : list Z := map Z.of_nat (seq 0 n).

Definition tab {A} (n : nat) (f : Z -> A) : list A := map f (range n).

Definition tabulate {A} (sh : nat * nat * nat) (f : idx -> A) : vol A :=
  let '(n0, n1, n2) := sh in
  tab n0 (fun i => tab n1 (fun j => tab n2 (fun k => f (i, j, k)))).

(** All indices of an array of shape [sh], in C order. *)
Definition indices (sh : nat * nat * nat) : list idx :=
  let '(n0, n1, n2) := sh in
  flat_map (fun i =>
    flat_map (fun j => map (fun k => (i, j, k)) (range n2)) (range n1))
    (range n0).

Definition inb (sh : nat * nat * nat) (p : idx) : bool :=
  let '(n0, n1, n2) := sh in
  let '(i, j, k) := p in
  (0 <=? i) && (i <? Z.of_nat n0) &&
  ((0 <=? j) && (j <? Z.of_nat n1)) &&
  ((0 <=? k) && (k <? Z.of_nat n2)).

Definition map3 {A B} (f : A -> B) (v : vol A) : vol B :=
  map (map (map f)) v.

(** An element-wise binary operation on two arrays of one shape. *)
Definition zip_with {A B C} (da : A) (db : B) (f : A -> B -> C)
  (a : vol A) (b : vol B) : vol C :=
  tabulate (shape a) (fun p => f (get da a p) (get db b p)).

(** [a | b] and [a ^ b] on boolean arrays. *)
Definition logical_or : vol bool -> vol bool -> vol bool :=
  zip_with false false orb.
Definition logical_xor : vol bool -> vol bool -> vol bool :=
  zip_with false false xorb.
Definition invert : vol bool -> vol bool := map3 negb.

(** Positions of the true cells, in C order. *)
Definition argwhere (mask : vol bool) : list idx :=
  filter (get false mask) (indices (shape mask)).

(** [a.any()] *)
Definition any (a : vol bool) : bool :=
  existsb (get false a) (indices (shape a)).

(** [arr[mask]]: boolean-mask indexing, a 1-D array in C order. *)
Definition select {A} (d : A) (arr : vol A) (mask : vol bool) : list A :=
  map (get d arr) (argwhere mask).

(** [a[cond] = 0] on a boolean array. *)
Definition clear_where (a cond : vol bool) : vol bool :=
  tabulate (shape a) (fun p => if get false cond p then false else get false a p).

(** [a.astype(bool)] of a numeric array, [a.astype(np.int8)] of a boolean one. *)
Definition astype_bool : vol Z -> vol bool := map3 (fun z => negb (z =? 0)).
Definition astype_int8 : vol bool -> vol Z := map3 Z.b2z.

(** [np.max(np.max(a, axis=2), axis=1)] and its two siblings: the
    projections of a boolean array onto axis 0, 1 and 2. *)
Definition proj_axis0 (a : vol bool) : list bool :=
  let '(n0, n1, n2) := shape a in
  tab n0 (fun i =>
    existsb (fun j => existsb (fun k => get false a (i, j, k)) (range n2)) (range n1)).

Definition proj_axis1 (a : vol bool) : list bool :=
  let '(n0, n1, n2) := shape a in
  tab n1 (fun j =>
    existsb (fun i => existsb (fun k => get false a (i, j, k)) (range n2)) (range n0)).

Definition proj_axis2 (a : vol bool) : list bool :=
  let '(n0, n1, n2) := shape a in
  tab n2 (fun k =>
    existsb (fun i => existsb (fun j => get false a (i, j, k)) (range n1)) (range n0)).

(** [np.nonzero(p)[0]] of a 1-D boolean array. *)
Definition nonzero (p : list bool) : list Z :=
  filter (nthZ false p) (range (length p)).

(** [np.min] and [np.max] of a 1-D integer array; a zero-size array has
    no minimum and raises ValueError. *)
Definition min (l : list Z) : result Z :=
  match l with
  | [] => Err ValueError
  | x :: xs => Ok (fold_left Z.min xs x)
  end.

Definition max (l : list Z) : result Z :=
  match l with
  | [] => Err ValueError
  | x :: xs => Ok (fold_left Z.max xs x)
  end.

(** [np.nanmin] and [np.nanmax] of a 1-D float array. *)
Definition nanmin (l : list float) : result float :=
  match l with
  | [] => Err ValueError
  | x :: xs => Ok (fold_left fmin xs x)
  end.

Definition nanmax (l : list float) : result float :=
  match l with
  | [] => Err ValueError
  | x :: xs => Ok (fold_left fmax xs x)
  end.

(** [np.sum(cond)] of a 1-D boolean array. *)
Definition count {A} (f : A -> bool) (l : list A) : nat := length (filter f l).

End np.

(** ** scipy.ndimage *)

Module ndimage.
Import np.

(** [generate_binary_structure(3, connectivity)]: the 3x3x3 array whose
    cell is true when its city-block distance to the centre is at most
    [connectivity]; a connectivity below 1 counts as 1. *)
Definition generate_binary_structure (connectivity : Z) : vol bool :=
  let c := if connectivity <? 1 then 1 else connectivity in
  tabulate (3, 3, 3)%nat (fun '(a, b, c') =>
    Z.abs (a - 1) + Z.abs (b - 1) + Z.abs (c' - 1) <=? c).

(** [binary_erosion(input, structure)] with its defaults (one iteration,
    origin at the centre, border_value 0): a cell survives when every
    neighbour selected by the structure is set; cells beyond the array
    count as unset. *)
Definition binary_erosion (input structure : vol bool) : vol bool :=
  let '(s0, s1, s2) := shape structure in
  let c0 := Z.of_nat s0 / 2 in
  let c1 := Z.of_nat s1 / 2 in
  let c2 := Z.of_nat s2 / 2 in
  tabulate (shape input) (fun '(i, j, k) =>
    forallb (fun '(a, b, c) =>
               implb (get false structure (a, b, c))
                     (get false input (i + a - c0, j + b - c1, k + c - c2)))
            (indices (s0, s1, s2))).

(** Physical distance between two cells under the voxel spacing:
    offset, times sampling, squared, summed, square root.  Computed over
    the reals: for extreme spacings float64 overflows a squared offset to
    infinity or underflows it to zero, and neither is modelled; no
    statement below says that a distance is finite or strictly positive. *)
Definition dist (sampling : R * R * R) (p q : idx) : R :=
  let '(s0, s1, s2) := sampling in
  let '(i, j, k) := p in
  let '(a, b, c) := q in
  let d0 := (IZR (a - i) * s0)%R in
  let d1 := (IZR (b - j) * s1)%R in
  let d2 := (IZR (c - k) * s2)%R in
  sqrt (d0 * d0 + d1 * d1 + d2 * d2).

(** The distance from cell [p] to the nearest of the cells [background].
    With no such cell scipy leaves its feature index at (-1, 0, 0), and
    the distance is measured to that position. *)
Definition min_dist (sampling : R * R * R) (p : idx) (background : list idx) : R :=
  match background with
  | [] => dist sampling p (-1, 0, 0)
  | q :: qs => fold_left Rmin (map (dist sampling p) qs) (dist sampling p q)
  end.

(** [distance_transform_edt(input, sampling)]: at each cell the distance
    to the nearest zero cell of [input]. *)
Definition distance_transform_edt (input : vol bool) (sampling : R * R * R)
  : vol float :=
  let background := argwhere (invert input) in
  tabulate (shape input) (fun p => Fin (min_dist sampling p background)).

End ndimage.

(** ** qam.margin *)

Import np.

(** [compute_bounding_box] (margin.py, lines 6-38). *)
Definition compute_bounding_box (mask_gt mask_pred exclusion_zone : vol bool)
  : result (idx * idx) :=
  let mask_all := logical_or mask_gt mask_pred in
  let mask_all := logical_or mask_all exclusion_zone in
  (* max projection to the x0-axis *)
  let idx_nonzero_0 := nonzero (proj_axis0 mask_all) in
  min0 <- np.min idx_nonzero_0 ;;
  max0 <- np.max idx_nonzero_0 ;;
  (* max projection to the x1-axis *)
  let idx_nonzero_1 := nonzero (proj_axis1 mask_all) in
  min1 <- np.min idx_nonzero_1 ;;
  max1 <- np.max idx_nonzero_1 ;;
  (* max projection to the x2-axis *)
  let idx_nonzero_2 := nonzero (proj_axis2 mask_all) in
  min2 <- np.min idx_nonzero_2 ;;
  max2 <- np.max idx_nonzero_2 ;;
  Ok ((min0, min1, min2), (max0, max1, max2)).

(** [crop_mask] (lines 41-47).  The result is a float64 array whose cells
    are 0.0 or 1.0, kept here as the integers 0 and 1.  The model follows
    numpy for boxes inside the source array, [0 <= bbox_min <= bbox_max <
    shape], which are the boxes [compute_distances] passes; the clamping
    and broadcasting of slices that leave the array are not modelled. *)
Definition crop_mask (mask : vol bool) (bbox_min bbox_max : idx) : vol Z :=
  let '(min0, min1, min2) := bbox_min in
  let '(max0, max1, max2) := bbox_max in
  let n0 := max0 - min0 + 2 in
  let n1 := max1 - min1 + 2 in
  let n2 := max2 - min2 + 2 in
  tabulate (Z.to_nat n0, Z.to_nat n1, Z.to_nat n2) (fun '(i, j, k) =>
    if (i <? n0 - 1) && (j <? n1 - 1) && (k <? n2 - 1)
    then Z.b2z (get false mask (min0 + i, min1 + j, min2 + k))
    else 0).

(** The crop stage of [compute_distances] (lines 62-71). *)
Definition crop_inputs (mask_gt mask_pred : vol bool)
  (exclusion_zone : option (vol bool)) (crop : bool)
  : result (vol bool * vol bool * option (vol bool)) :=
  if crop then
    match exclusion_zone with
    | Some ez =>
        '(bbox_min, bbox_max) <- compute_bounding_box mask_gt mask_pred ez ;;
        Ok (astype_bool (crop_mask mask_gt bbox_min bbox_max),
            astype_bool (crop_mask mask_pred bbox_min bbox_max),
            Some (astype_bool (crop_mask ez bbox_min bbox_max)))
    | None =>
        '(bbox_min, bbox_max) <- compute_bounding_box mask_gt mask_pred mask_gt ;;
        Ok (astype_bool (crop_mask mask_gt bbox_min bbox_max),
            astype_bool (crop_mask mask_pred bbox_min bbox_max),
            None)
    end
  else Ok (mask_gt, mask_pred, exclusion_zone).

(** Surface extraction (lines 73-74, 75-76 and 98-100): the region XOR its
    erosion by the structuring element of the given connectivity. *)
Definition extract_borders (mask : vol bool) (connectivity : Z) : vol bool :=
  let border_inside :=
    ndimage.binary_erosion mask (ndimage.generate_binary_structure connectivity) in
  logical_xor mask border_inside.

(** The sign mask (lines 82-83, 91-92 and 104-105): the region as int8,
    with every 0 replaced by -1. *)
Definition distmask_of (mask : vol bool) : vol Z :=
  map3 (fun z => if z =? 0 then -1 else z) (astype_int8 mask).

(** The signed distance map (lines 80-84, 89-93 and 101-106): the distance
    transform of the complement of the borders, multiplied in place by the
    sign mask. *)
Definition signed_distmap (mask borders : vol bool) (spacing_mm : R * R * R)
  : vol float :=
  let distmap := ndimage.distance_transform_edt (invert borders) spacing_mm in
  zip_with NaN (-1) fmul_int distmap (distmask_of mask).

(** [np.Inf * np.ones(shape)] *)
Definition inf_map (sh : nat * nat * nat) : vol float :=
  tabulate sh (fun _ => fmul_int PInf 1).

(** The dictionary returned by [compute_distances]. *)
Record surface_distances : Type := {
  distances_gt_to_pred : list float;
  distances_pred_to_gt : list float;
  borders_gt : vol bool;
  borders_pred : vol bool;
  distmap_gt : vol float;
  distmap_pred : vol float;
  distmask_pred : vol Z;
  border_exclusion : option (vol bool);
  distmap_exclusion : option (vol float)
}.

(** The cells of the exclusion map below the threshold
    ([distmap_exclusion < exclusion_distance]). *)
Definition below (distmap : vol float) (threshold : R) : vol bool :=
  map3 (fun x => flt x threshold) distmap.

(** [compute_distances] (lines 50-123).  [distmask_pred] is assigned only
    in the branch taken when the predicted borders are non-empty; the
    return statement reads it in both. *)
Definition compute_distances (mask_gt mask_pred : vol bool)
  (exclusion_zone : option (vol bool)) (spacing_mm : R * R * R)
  (connectivity : Z) (crop : bool) (exclusion_distance : R)
  : result surface_distances :=
  '(mask_gt, mask_pred, exclusion_zone) <-
     crop_inputs mask_gt mask_pred exclusion_zone crop ;;
  let borders_gt := extract_borders mask_gt connectivity in
  let borders_pred := extract_borders mask_pred connectivity in
  (* the distance transform: closest distance of each voxel to the surface *)
  let distmap_gt :=
    if any borders_gt then signed_distmap mask_gt borders_gt spacing_mm
    else inf_map (shape borders_gt) in
  let '(distmap_pred, distmask_pred) :=
    if any borders_pred
    then (signed_distmap mask_pred borders_pred spacing_mm,
          Some (distmask_of mask_pred))
    else (inf_map (shape borders_pred), None) in
  let '(borders_gt, borders_pred, exclusion) :=
    match exclusion_zone with
    | Some ez =>
        let borders_exclusion := extract_borders ez connectivity in
        let distmap_exclusion := signed_distmap ez borders_exclusion spacing_mm in
        let borders_pred :=
          clear_where borders_pred (below distmap_exclusion exclusion_distance) in
        let borders_gt :=
          clear_where borders_gt (below distmap_exclusion exclusion_distance) in
        (borders_gt, borders_pred, Some (borders_exclusion, distmap_exclusion))
    | None => (borders_gt, borders_pred, None)
    end in
  (* the surface elements with their distances *)
  let distances_gt_to_pred := select NaN distmap_pred borders_gt in
  let distances_pred_to_gt := select NaN distmap_gt borders_pred in
  match distmask_pred with
  | None => Err UnboundLocalError
  | Some distmask_pred =>
      Ok {| distances_gt_to_pred := distances_gt_to_pred;
            distances_pred_to_gt := distances_pred_to_gt;
            borders_gt := borders_gt;
            borders_pred := borders_pred;
            distmap_gt := distmap_gt;
            distmap_pred := distmap_pred;
            distmask_pred := distmask_pred;
            border_exclusion := option_map fst exclusion;
            distmap_exclusion := option_map snd exclusion |}
  end.

(** [summarize_surface_dists] (lines 126-159).  [np.nanquantile] and
    [np.nanmedian] are taken as given: no property below depends on how
    numpy interpolates. *)
Section Summarizer.

Variables patient_id lesion_id : Type.
Variable nanquantile : list float -> R -> float.
Variable nanmedian : list float -> float.

(** The one-row table returned by the summarizer. *)
Record coverage_data : Type := {
  Patient : patient_id;
  Lesion : lesion_id;
  nr_voxels : nat;
  min_distance : float;
  q25_distance : float;
  median_distance : float;
  q75_distance : float;
  max_distance : float;
  x_less_than_0mm : R;
  x_equal_greater_than_0m : R;
  x_equal_greater_than_5m : R
}.

Definition summarize_surface_dists (patient : patient_id) (lesion : lesion_id)
  (surface_distance : surface_distances) : result coverage_data :=
  let distances := distances_gt_to_pred surface_distance in
  let nr_voxels := length distances in
  min_distance <- nanmin distances ;;
  let q25_distance := nanquantile distances 0.25 in
  let median_distance := nanmedian distances in
  let q75_distance := nanquantile distances 0.75 in
  max_distance <- nanmax distances ;;
  let non_ablated :=
    (INR (count (fun d => flt d 0) distances) / INR nr_voxels)%R in
  let insuffiecient_ablated :=
    (INR (count (fun d => flt d 5) distances) / INR nr_voxels)%R in
  let completely_ablated :=
    (INR (count (fun d => fge d 5) distances) / INR nr_voxels)%R in
  Ok {| Patient := patient;
        Lesion := lesion;
        nr_voxels := nr_voxels;
        min_distance := min_distance;
        q25_distance := q25_distance;
        median_distance := median_distance;
        q75_distance := q75_distance;
        max_distance := max_distance;
        x_less_than_0mm := non_ablated;
        x_equal_greater_than_0m := insuffiecient_ablated;
        x_equal_greater_than_5m := completely_ablated |}.

End Summarizer.

(** ** Vocabulary of the statements *)

(** [v[lo0:hi0, lo1:hi1, lo2:hi2]] for bounds inside the array. *)
Definition slice {A} (d : A) (v : vol A) (lo hi : idx) : vol A :=
  let '(lo0, lo1, lo2) := lo in
  let '(hi0, hi1, hi2) := hi in
  tabulate (Z.to_nat (hi0 - lo0), Z.to_nat (hi1 - lo1), Z.to_nat (hi2 - lo2))
    (fun '(i, j, k) => get d v (lo0 + i, lo1 + j, lo2 + k)).

(** The cropping rule with the copied block ending [off] cells before the
    end of every axis: the shape is [(max - min) + 2], the cells
    [[0 .. len - off)] of the crop are the source cells [[min .. max]], and
    the last slice along every axis is zero. *)
Definition crop_rule (off : Z) (mask : vol bool) (bbox_min bbox_max : idx) : Prop :=
  let '(min0, min1, min2) := bbox_min in
  let '(max0, max1, max2) := bbox_max in
  let n0 := max0 - min0 + 2 in
  let n1 := max1 - min1 + 2 in
  let n2 := max2 - min2 + 2 in
  let cropmask := crop_mask mask bbox_min bbox_max in
  shape cropmask = (Z.to_nat n0, Z.to_nat n1, Z.to_nat n2) /\
  slice 0 cropmask (0, 0, 0) (n0 - off, n1 - off, n2 - off)
  = astype_int8 (slice false mask bbox_min (max0 + 1, max1 + 1, max2 + 1)) /\
  forall i j k,
    inb (shape cropmask) (i, j, k) = true ->
    i = n0 - 1 \/ j = n1 - 1 \/ k = n2 - 1 ->
    get 0 cropmask (i, j, k) = 0.

(** A box inside an array of the given shape. *)
Definition bbox_within (sh : nat * nat * nat) (bbox_min bbox_max : idx) : Prop :=
  let '(n0, n1, n2) := sh in
  let '(min0, min1, min2) := bbox_min in
  let '(max0, max1, max2) := bbox_max in
  0 <= min0 <= max0 /\ max0 < Z.of_nat n0 /\
  0 <= min1 <= max1 /\ max1 < Z.of_nat n1 /\
  0 <= min2 <= max2 /\ max2 < Z.of_nat n2.

(** [l] is a sub-multiset of [k]. *)
Definition submultiset {A} (l k : list A) : Prop :=
  exists rest, Permutation (l ++ rest) k.

(** The Distance Mapper on one region (lines 79-86 and 88-95): the signed
    map when the borders are non-empty, the infinite map otherwise. *)
Definition distance_map (mask : vol bool) (connectivity : Z)
  (spacing_mm : R * R * R) : vol float :=
  let borders := extract_borders mask connectivity in
  if any borders then signed_distmap mask borders spacing_mm
  else inf_map (shape borders).

(** The signed distance map of the exclusion zone (lines 98-106). *)
Definition exclusion_map (ez : vol bool) (connectivity : Z)
  (spacing_mm : R * R * R) : vol float :=
  signed_distmap ez (extract_borders ez connectivity) spacing_mm.

(** The Exclusion Masker on the borders of one region (lines 97-109). *)
Definition masked_borders (mask : vol bool) (exclusion_zone : option (vol bool))
  (connectivity : Z) (spacing_mm : R * R * R) (exclusion_distance : R) : vol bool :=
  match exclusion_zone with
  | Some ez =>
      clear_where (extract_borders mask connectivity)
        (below (exclusion_map ez connectivity spacing_mm) exclusion_distance)
  | None => extract_borders mask connectivity
  end.



(** The physical distance of every cell to the boundary of the exclusion
    zone: the distance transform of line 101, before the sign is applied. *)
Definition boundary_distance (ez : vol bool) (connectivity : Z)
  (spacing_mm : R * R * R) : vol float :=
  ndimage.distance_transform_edt (invert (extract_borders ez connectivity)) spacing_mm.

(** [masked] is [shell] with exactly the cells selected by [removed]
    zeroed. *)
Definition masker_rule (removed : idx -> bool) (shell masked : vol bool) : Prop :=
  forall q, get false masked q = get false shell q && negb (removed q).

(** A volume of shape 1 x 1 x n, for examples. *)
Definition line (cells : list bool) : vol bool := [[cells]].

(** The cell [q] moved by the offset [t], and a region [a] that is the
    region [b] seen from an origin moved by [t]. *)
Definition shift (q t : idx) : idx :=
  let '(i, j, k) := q in
  let '(t0, t1, t2) := t in
  (i + t0, j + t1, k + t2).

Definition translated (t : idx) (a b : vol bool) : Prop :=
  forall q, get false a q = get false b (shift q t).

(** The box [bbox_min .. bbox_max] holds the cell [q]. *)
Definition in_box (bbox_min bbox_max q : idx) : Prop :=
  let '(min0, min1, min2) := bbox_min in
  let '(max0, max1, max2) := bbox_max in
  let '(i, j, k) := q in
  min0 <= i <= max0 /\ min1 <= j <= max1 /\ min2 <= k <= max2.

(** The union whose bounding box the crop stage takes (lines 64 and 69):
    without an exclusion zone the target stands in for it. *)
Definition union_of (mask_gt mask_pred : vol bool)
  (exclusion_zone : option (vol bool)) : vol bool :=
  logical_or (logical_or mask_gt mask_pred)
    (match exclusion_zone with Some ez => ez | None => mask_gt end).

(** Optional exclusion zones that are both absent, or both present, of the
    given shapes, and translates of each other. *)
Definition translated_opt (t : idx) (e e0 : option (vol bool))
  (sh sh0 : nat * nat * nat) : Prop :=
  match e, e0 with
  | Some z, Some z0 => translated t z z0 /\ has_shape z sh /\ has_shape z0 sh0
  | None, None => True
  | _, _ => False
  end.

(** Every input volume has the shape [sh]. *)
Definition same_shape (mask_gt mask_pred : vol bool)
  (exclusion_zone : option (vol bool)) (sh : nat * nat * nat) : Prop :=
  has_shape mask_gt sh /\ has_shape mask_pred sh /\
  match exclusion_zone with Some ez => has_shape ez sh | None => True end.

(** A dictionary with the two given distance lists and empty arrays, for
    statements about the summarizer alone. *)
Definition dict_of_lists (gt_to_pred pred_to_gt : list float) : surface_distances :=
  {| distances_gt_to_pred := gt_to_pred;
     distances_pred_to_gt := pred_to_gt;
     borders_gt := [];
     borders_pred := [];
     distmap_gt := [];
     distmap_pred := [];
     distmask_pred := [];
     border_exclusion := None;
     distmap_exclusion := None |}.

(** Equal cells, up to integer arithmetic on their coordinates. *)
Ltac idx_eq :=
  try match goal with
      | |- get ?d ?v _ = get ?d ?v _ => apply (f_equal (get d v))
      end;
  repeat match goal with
         | |- (_, _) = (_, _) => apply f_equal2
         end;
  lia.

(** * Properties *)

(** ** Arrays: reading what was tabulated *)

Lemma nthZ_range (n : nat) (i : Z) :
  nthZ (-1) (range n) i = if (0 <=? i) && (i <? Z.of_nat n) then i else -1.
Proof.
  unfold nthZ, range.
  destruct (Z.ltb_spec i 0) as [Hneg | Hpos].
  - destruct (Z.leb_spec 0 i); [lia | reflexivity].
  - destruct (Z.leb_spec 0 i); [ | lia]. cbn [andb].
    destruct (Z.ltb_spec i (Z.of_nat n)) as [Hlt | Hge].
    + rewrite nth_indep with (d' := Z.of_nat 0) by (rewrite length_map, length_seq; lia).
      rewrite map_nth, seq_nth by lia. lia.
    + apply nth_overflow. rewrite length_map, length_seq. lia.
Qed.

Lemma length_range (n : nat) : length (range n) = n.
Proof. unfold range. now rewrite length_map, length_seq. Qed.

Lemma length_tab {A} (n : nat) (f : Z -> A) : length (tab n f) = n.
Proof. unfold tab. now rewrite length_map, length_range. Qed.

Lemma nthZ_tab {A} (d : A) (n : nat) (f : Z -> A) (i : Z) :
  nthZ d (tab n f) i = if (0 <=? i) && (i <? Z.of_nat n) then f i else d.
Proof.
  pose proof (nthZ_range n i) as Hr. unfold nthZ, tab in *.
  destruct (Z.ltb_spec i 0) as [Hneg | Hpos].
  - destruct (Z.leb_spec 0 i); [lia | reflexivity].
  - destruct (Z.leb_spec 0 i); [ | lia]. cbn [andb] in *.
    destruct (Z.ltb_spec i (Z.of_nat n)) as [Hlt | Hge].
    + rewrite nth_indep with (d' := f (-1)) by (rewrite length_map, length_range; lia).
      rewrite map_nth. now rewrite Hr.
    + apply nth_overflow. rewrite length_map, length_range. lia.
Qed.

Lemma In_range (n : nat) (i : Z) : In i (range n) <-> 0 <= i < Z.of_nat n.
Proof.
  unfold range. rewrite in_map_iff. split.
  - intros (x & <- & Hx). apply in_seq in Hx. lia.
  - intros H. exists (Z.to_nat i). split; [lia | apply in_seq; lia].
Qed.

Lemma NoDup_range (n : nat) : NoDup (range n).
Proof.
  unfold range. apply Injective_map_NoDup; [ | apply seq_NoDup].
  intros x y H. lia.
Qed.

Lemma inb_true_iff (n0 n1 n2 : nat) (i j k : Z) :
  inb (n0, n1, n2) (i, j, k) = true <->
  0 <= i < Z.of_nat n0 /\ 0 <= j < Z.of_nat n1 /\ 0 <= k < Z.of_nat n2.
Proof. unfold inb. rewrite !andb_true_iff, !Z.leb_le, !Z.ltb_lt. tauto. Qed.

Lemma nthZ_nil {A} (d : A) (i : Z) : nthZ d [] i = d.
Proof. unfold nthZ. destruct (i <? 0); [reflexivity | now destruct (Z.to_nat i)]. Qed.

Lemma get_tabulate {A} (d : A) (sh : nat * nat * nat) (f : idx -> A) (p : idx) :
  get d (tabulate sh f) p = if inb sh p then f p else d.
Proof.
  destruct sh as [[n0 n1] n2], p as [[i j] k]. unfold get, tabulate, inb.
  rewrite nthZ_tab.
  destruct ((0 <=? i) && (i <? Z.of_nat n0)); cbn [andb].
  - rewrite nthZ_tab.
    destruct ((0 <=? j) && (j <? Z.of_nat n1)); cbn [andb].
    + exact (nthZ_tab d n2 (fun k => f (i, j, k)) k).
    + apply nthZ_nil.
  - now rewrite !nthZ_nil.
Qed.

Lemma has_shape_tabulate {A} (sh : nat * nat * nat) (f : idx -> A) :
  has_shape (tabulate sh f) sh.
Proof.
  destruct sh as [[n0 n1] n2]. unfold has_shape, tabulate. split.
  - apply length_tab.
  - apply Forall_forall. intros p Hp. unfold tab in Hp.
    apply in_map_iff in Hp as (i & <- & _). split.
    + apply length_tab.
    + apply Forall_forall. intros r Hr. unfold tab in Hr.
      apply in_map_iff in Hr as (j & <- & _). apply length_tab.
Qed.

Lemma has_shape_shape {A} (v : vol A) (n0 n1 n2 : nat) :
  has_shape v (n0, n1, n2) -> (0 < n0)%nat -> (0 < n1)%nat ->
  shape v = (n0, n1, n2).
Proof.
  unfold has_shape, shape. intros [H0 H] Hn0 Hn1.
  destruct v as [ | p v]; cbn in *; [lia | ].
  inversion H as [ | ? ? [Hp Hr] _]; subst.
  destruct p as [ | r p]; cbn in *; [lia | ].
  inversion Hr; subst. reflexivity.
Qed.

Lemma nthZ_outside {A} (d : A) (l : list A) (i : Z) :
  ~ (0 <= i < Z.of_nat (length l)) -> nthZ d l i = d.
Proof.
  intros H. unfold nthZ. destruct (Z.ltb_spec i 0); [reflexivity | ].
  apply nth_overflow. lia.
Qed.

Lemma nthZ_In {A} (d : A) (l : list A) (i : Z) :
  0 <= i < Z.of_nat (length l) -> In (nthZ d l i) l.
Proof.
  intros H. unfold nthZ. destruct (Z.ltb_spec i 0); [lia | ].
  apply nth_In. lia.
Qed.

(** Outside its shape a rectangular array reads as the default. *)
Lemma get_outside {A} (d : A) (v : vol A) (sh : nat * nat * nat) (p : idx) :
  has_shape v sh -> inb sh p = false -> get d v p = d.
Proof.
  destruct sh as [[n0 n1] n2], p as [[i j] k]. intros [H0 H] Hp.
  unfold get.
  destruct (Z_lt_dec i 0) as [Hi | Hi];
    [rewrite (nthZ_outside [] v i) by lia; now rewrite !nthZ_nil | ].
  destruct (Z_lt_dec i (Z.of_nat n0)) as [Hi' | Hi'];
    [ | rewrite (nthZ_outside [] v i) by lia; now rewrite !nthZ_nil ].
  assert (Hin : In (nthZ [] v i) v) by (apply nthZ_In; lia).
  rewrite Forall_forall in H. destruct (H _ Hin) as [H1 H2].
  destruct (Z_lt_dec j 0) as [Hj | Hj];
    [rewrite (nthZ_outside [] _ j) by lia; apply nthZ_nil | ].
  destruct (Z_lt_dec j (Z.of_nat n1)) as [Hj' | Hj'];
    [ | rewrite (nthZ_outside [] _ j) by lia; apply nthZ_nil ].
  assert (Hin2 : In (nthZ [] (nthZ [] v i) j) (nthZ [] v i)) by (apply nthZ_In; lia).
  rewrite Forall_forall in H2. specialize (H2 _ Hin2).
  apply nthZ_outside. rewrite H2.
  unfold inb in Hp. rewrite !andb_false_iff, !Z.leb_gt, !Z.ltb_ge in Hp. lia.
Qed.

Lemma nthZ_map {A B} (f : A -> B) (d : A) (l : list A) (i : Z) :
  nthZ (f d) (map f l) i = f (nthZ d l i).
Proof. unfold nthZ. destruct (i <? 0); [reflexivity | apply map_nth]. Qed.

Lemma get_map3 {A B} (f : A -> B) (d : A) (v : vol A) (p : idx) :
  get (f d) (map3 f v) p = f (get d v p).
Proof.
  destruct p as [[i j] k]. unfold get, map3.
  rewrite <- nthZ_map. f_equal.
  change (@nil (list B)) with (map (map f) []).
  change (@nil B) with (map f []) at 1.
  now rewrite !nthZ_map.
Qed.

Lemma shape_map3 {A B} (f : A -> B) (v : vol A) : shape (map3 f v) = shape v.
Proof.
  unfold shape, map3. rewrite length_map.
  destruct v as [ | p v]; [reflexivity | ]. cbn. rewrite length_map.
  destruct p as [ | r p]; [reflexivity | ]. cbn. now rewrite length_map.
Qed.

Lemma has_shape_map3 {A B} (f : A -> B) (v : vol A) sh :
  has_shape v sh -> has_shape (map3 f v) sh.
Proof.
  destruct sh as [[n0 n1] n2]. unfold has_shape, map3. intros [H0 H]. split.
  - now rewrite length_map.
  - rewrite Forall_forall in *. intros p Hp.
    apply in_map_iff in Hp as (q & <- & Hq). destruct (H _ Hq) as [H1 H2].
    rewrite length_map. split; [assumption | ].
    rewrite Forall_forall in *. intros r Hr.
    apply in_map_iff in Hr as (s & <- & Hs). rewrite length_map. auto.
Qed.

Lemma In_indices (sh : nat * nat * nat) (p : idx) :
  In p (indices sh) <-> inb sh p = true.
Proof.
  destruct sh as [[n0 n1] n2], p as [[i j] k].
  rewrite inb_true_iff. unfold indices. rewrite in_flat_map. split.
  - intros (a & Ha & H). apply in_flat_map in H as (b & Hb & H).
    apply in_map_iff in H as (c & Heq & Hc). inversion Heq; subst.
    rewrite In_range in Ha, Hb, Hc. tauto.
  - intros (Hi & Hj & Hk). exists i. split; [now apply In_range | ].
    apply in_flat_map. exists j. split; [now apply In_range | ].
    apply in_map_iff. exists k. split; [reflexivity | now apply In_range].
Qed.

Lemma NoDup_flat_map {A B} (f : A -> list B) (l : list A) :
  NoDup l -> (forall x, In x l -> NoDup (f x)) ->
  (forall x y b, In x l -> In y l -> In b (f x) -> In b (f y) -> x = y) ->
  NoDup (flat_map f l).
Proof.
  induction 1 as [ | x l Hx Hl IH]; intros Hf Hdisj; cbn; [constructor | ].
  apply NoDup_app; [apply Hf; now left | | ].
  - apply IH; [intros; apply Hf; now right | ].
    intros a b c Ha Hb. apply Hdisj; now right.
  - intros b Hb Hin. apply in_flat_map in Hin as (y & Hy & Hby).
    assert (x = y) by (apply (Hdisj x y b); auto; [now left | now right]).
    subst. contradiction.
Qed.

Lemma NoDup_indices (sh : nat * nat * nat) : NoDup (indices sh).
Proof.
  destruct sh as [[n0 n1] n2]. unfold indices.
  apply NoDup_flat_map; [apply NoDup_range | | ].
  - intros i _. apply NoDup_flat_map; [apply NoDup_range | | ].
    + intros j _. apply Injective_map_NoDup; [ | apply NoDup_range].
      intros a b H. now inversion H.
    + intros a b [[x y] z] _ _ Ha Hb.
      apply in_map_iff in Ha as (? & Ha & _), Hb as (? & Hb & _). congruence.
  - intros a b [[x y] z] _ _ Ha Hb.
    apply in_flat_map in Ha as (? & _ & Ha), Hb as (? & _ & Hb).
    apply in_map_iff in Ha as (? & Ha & _), Hb as (? & Hb & _). congruence.
Qed.

Lemma any_true_iff (a : vol bool) :
  any a = true <-> exists p, inb (shape a) p = true /\ get false a p = true.
Proof.
  unfold any. rewrite existsb_exists.
  split; intros (p & H1 & H2); exists p; split; try apply In_indices; auto.
Qed.

Lemma any_false_iff (a : vol bool) :
  any a = false <-> forall p, inb (shape a) p = true -> get false a p = false.
Proof.
  split.
  - intros H p Hp. destruct (get false a p) eqn:E; [ | reflexivity].
    assert (any a = true) by (apply any_true_iff; eauto). congruence.
  - intros H. destruct (any a) eqn:E; [ | reflexivity].
    apply any_true_iff in E as (p & Hp & Hg). rewrite H in Hg; auto.
Qed.

Lemma In_argwhere (mask : vol bool) (p : idx) :
  In p (argwhere mask) <-> inb (shape mask) p = true /\ get false mask p = true.
Proof. unfold argwhere. now rewrite filter_In, In_indices. Qed.

Lemma NoDup_argwhere (mask : vol bool) : NoDup (argwhere mask).
Proof. apply NoDup_filter, NoDup_indices. Qed.

Lemma argwhere_nil_iff (mask : vol bool) : argwhere mask = [] <-> any mask = false.
Proof.
  rewrite any_false_iff. split.
  - intros H p Hp. destruct (get false mask p) eqn:E; [ | reflexivity].
    assert (Hin : In p (argwhere mask)) by (apply In_argwhere; auto).
    rewrite H in Hin. destruct Hin.
  - intros H. destruct (argwhere mask) as [ | p l] eqn:E; [reflexivity | ].
    assert (Hin : In p (argwhere mask)) by (rewrite E; now left).
    apply In_argwhere in Hin as [Hp Hg]. rewrite H in Hg; congruence.
Qed.

Lemma filter_nil {A} (f : A -> bool) (l : list A) :
  (forall x, In x l -> f x = false) -> filter f l = [].
Proof.
  induction l as [ | x l IH]; intros H; [reflexivity | ]. cbn.
  rewrite (H x) by now left. apply IH. intros; apply H; now right.
Qed.

Lemma existsb_false {A} (f : A -> bool) (l : list A) :
  (forall x, In x l -> f x = false) -> existsb f l = false.
Proof.
  intros H. destruct (existsb f l) eqn:E; [ | reflexivity].
  apply existsb_exists in E as (x & Hx & Hf). rewrite H in Hf; auto.
Qed.

(** ** The structuring element and the erosion *)

Lemma get_generate_binary_structure (connectivity : Z) (a b c : Z) :
  get false (ndimage.generate_binary_structure connectivity) (a, b, c) =
  inb (3, 3, 3)%nat (a, b, c) &&
  (Z.abs (a - 1) + Z.abs (b - 1) + Z.abs (c - 1)
   <=? (if connectivity <? 1 then 1 else connectivity)).
Proof.
  unfold ndimage.generate_binary_structure. rewrite get_tabulate.
  now destruct (inb (3, 3, 3)%nat (a, b, c)).
Qed.

Lemma get_binary_erosion (input : vol bool) (connectivity : Z) (i j k : Z) :
  get false (ndimage.binary_erosion input
               (ndimage.generate_binary_structure connectivity)) (i, j, k) =
  inb (shape input) (i, j, k) &&
  forallb (fun '(a, b, c) =>
             implb (get false (ndimage.generate_binary_structure connectivity) (a, b, c))
                   (get false input (i + a - 1, j + b - 1, k + c - 1)))
          (indices (3, 3, 3)%nat).
Proof.
  unfold ndimage.binary_erosion.
  change (shape (ndimage.generate_binary_structure connectivity))
    with (3, 3, 3)%nat.
  cbv beta iota. change (Z.of_nat 3 / 2) with 1.
  rewrite get_tabulate. now destruct (inb (shape input) (i, j, k)).
Qed.

(** The erosion never adds a cell: the centre of the structuring element
    is always set. *)
Lemma binary_erosion_subset (input : vol bool) (connectivity : Z) (p : idx) :
  get false (ndimage.binary_erosion input
               (ndimage.generate_binary_structure connectivity)) p = true ->
  get false input p = true.
Proof.
  destruct p as [[i j] k]. rewrite get_binary_erosion.
  intros H. apply andb_true_iff in H as [_ H].
  rewrite forallb_forall in H. specialize (H (1, 1, 1)).
  cbv beta iota in H. rewrite get_generate_binary_structure in H.
  replace (i + 1 - 1) with i in H by lia.
  replace (j + 1 - 1) with j in H by lia.
  replace (k + 1 - 1) with k in H by lia.
  assert (Hc : (Z.abs (1 - 1) + Z.abs (1 - 1) + Z.abs (1 - 1)
                <=? (if connectivity <? 1 then 1 else connectivity)) = true).
  { apply Z.leb_le. destruct (Z.ltb_spec connectivity 1); cbn; lia. }
  rewrite Hc in H. apply H. apply In_indices. reflexivity.
Qed.

Lemma get_extract_borders (mask : vol bool) (connectivity : Z) (p : idx) :
  get false (extract_borders mask connectivity) p =
  inb (shape mask) p &&
  xorb (get false mask p)
       (get false (ndimage.binary_erosion mask
                     (ndimage.generate_binary_structure connectivity)) p).
Proof.
  unfold extract_borders, logical_xor, zip_with. rewrite get_tabulate.
  now destruct (inb (shape mask) p).
Qed.

(** C9. Boundary shell containment: for every binary volume and every
    connectivity value, each cell that is set in the boundary shell
    (the volume XOR its erosion) is set in the volume. *)
Theorem boundary_shell_subset (V : vol bool) (connectivity : Z) (p : idx) :
  get false
    (logical_xor V
       (ndimage.binary_erosion V (ndimage.generate_binary_structure connectivity)))
    p = true ->
  get false V p = true.
Proof.
  intros H. change (get false (extract_borders V connectivity) p = true) in H.
  rewrite get_extract_borders in H. apply andb_true_iff in H as [_ H].
  destruct (get false V p) eqn:EV; [reflexivity | ].
  cbn in H. apply binary_erosion_subset in H. congruence.
Qed.

Lemma boundary_shell_subset_witness :
  get false
    (logical_xor [[[true]]]
       (ndimage.binary_erosion [[[true]]] (ndimage.generate_binary_structure 1)))
    (0, 0, 0) = true /\
  get false [[[true]]] (0, 0, 0) = true.
Proof.
  split; [reflexivity | ].
  apply (boundary_shell_subset [[[true]]] 1 (0, 0, 0)). reflexivity.
Defined.

(** ** The bounding box *)

Lemma nonzero_proj_axis0_empty (a : vol bool) :
  any a = false -> nonzero (proj_axis0 a) = [].
Proof.
  intros H. rewrite any_false_iff in H.
  unfold nonzero. apply filter_nil. intros i _.
  unfold proj_axis0. destruct (shape a) as [[n0 n1] n2] eqn:E.
  rewrite nthZ_tab.
  destruct ((0 <=? i) && (i <? Z.of_nat n0)) eqn:Ei; [ | reflexivity].
  apply existsb_false. intros j Hj. apply existsb_false. intros k Hk.
  apply H. apply inb_true_iff.
  apply andb_true_iff in Ei as [Ei1 Ei2].
  apply Z.leb_le in Ei1. apply Z.ltb_lt in Ei2.
  apply In_range in Hj, Hk. lia.
Qed.

(** C8. Empty-union failure: when the element-wise union of the three
    input volumes has no true voxel, [compute_bounding_box] raises
    (numpy's ValueError for the minimum of a zero-size array) and returns
    no bounding box. *)
Theorem compute_bounding_box_empty_union (mask_gt mask_pred exclusion_zone : vol bool) :
  any (logical_or (logical_or mask_gt mask_pred) exclusion_zone) = false ->
  compute_bounding_box mask_gt mask_pred exclusion_zone = Err ValueError.
Proof.
  intros H. unfold compute_bounding_box.
  now rewrite (nonzero_proj_axis0_empty _ H).
Qed.

(** An empty target volume passed alone, in all three positions. *)
Lemma compute_bounding_box_empty_union_witness :
  any (logical_or (logical_or [[[false; false]]] [[[false; false]]])
         [[[false; false]]]) = false /\
  compute_bounding_box [[[false; false]]] [[[false; false]]] [[[false; false]]]
  = Err ValueError.
Proof.
  split; [reflexivity | ].
  apply (compute_bounding_box_empty_union
           [[[false; false]]] [[[false; false]]] [[[false; false]]]).
  reflexivity.
Defined.

(** ** The cropper *)

Lemma tabulate_ext {A} (sh : nat * nat * nat) (f g : idx -> A) :
  (forall p, inb sh p = true -> f p = g p) -> tabulate sh f = tabulate sh g.
Proof.
  destruct sh as [[n0 n1] n2]. intros H. unfold tabulate, tab.
  apply map_ext_in. intros i Hi. apply map_ext_in. intros j Hj.
  apply map_ext_in. intros k Hk. apply H. apply inb_true_iff.
  apply In_range in Hi, Hj, Hk. lia.
Qed.

Lemma map3_tabulate {A B} (g : A -> B) (sh : nat * nat * nat) (f : idx -> A) :
  map3 g (tabulate sh f) = tabulate sh (fun p => g (f p)).
Proof.
  destruct sh as [[n0 n1] n2]. unfold map3, tabulate, tab.
  rewrite map_map. apply map_ext. intros i.
  rewrite map_map. apply map_ext. intros j. now rewrite map_map.
Qed.

Lemma shape_tabulate {A} (n0 n1 n2 : nat) (f : idx -> A) :
  (0 < n0)%nat -> (0 < n1)%nat -> shape (tabulate (n0, n1, n2) f) = (n0, n1, n2).
Proof. intros. apply has_shape_shape; auto. apply has_shape_tabulate. Qed.

Lemma get_crop_mask (mask : vol bool) (min0 min1 min2 max0 max1 max2 i j k : Z) :
  get 0 (crop_mask mask (min0, min1, min2) (max0, max1, max2)) (i, j, k) =
  if (0 <=? i) && (i <=? max0 - min0) &&
     ((0 <=? j) && (j <=? max1 - min1)) &&
     ((0 <=? k) && (k <=? max2 - min2))
  then Z.b2z (get false mask (min0 + i, min1 + j, min2 + k))
  else 0.
Proof.
  unfold crop_mask. rewrite get_tabulate. unfold inb.
  repeat match goal with
         | |- context [?a <=? ?b] => destruct (Z.leb_spec a b)
         | |- context [?a <? ?b] => destruct (Z.ltb_spec a b)
         end; cbn [andb]; try reflexivity; lia.
Qed.

(** C5 (amended). Cropper shape and padding: for every bounding box
    inside the source volume, [crop_mask] returns a volume of shape
    [(max - min) + 2] per axis in which the indices [[0 .. len-1)] along
    every axis hold the source sub-volume [[min .. max]] inclusive, and
    the last slice along every axis is zero. *)
Theorem crop_mask_shape_padding (mask : vol bool) (sh : nat * nat * nat)
  (bbox_min bbox_max : idx) :
  has_shape mask sh ->
  bbox_within sh bbox_min bbox_max ->
  crop_rule 1 mask bbox_min bbox_max.
Proof.
  destruct sh as [[n0 n1] n2], bbox_min as [[min0 min1] min2],
    bbox_max as [[max0 max1] max2].
  intros _ (H0 & H0' & H1 & H1' & H2 & H2'). unfold crop_rule.
  assert (Hshape : shape (crop_mask mask (min0, min1, min2) (max0, max1, max2))
                   = (Z.to_nat (max0 - min0 + 2), Z.to_nat (max1 - min1 + 2),
                      Z.to_nat (max2 - min2 + 2))).
  { unfold crop_mask. apply shape_tabulate; lia. }
  split; [exact Hshape | ]. split.
  - unfold slice, astype_int8. rewrite map3_tabulate.
    replace (max0 - min0 + 2 - 1 - 0) with (max0 + 1 - min0) by lia.
    replace (max1 - min1 + 2 - 1 - 0) with (max1 + 1 - min1) by lia.
    replace (max2 - min2 + 2 - 1 - 0) with (max2 + 1 - min2) by lia.
    apply tabulate_ext. intros [[i j] k] Hp. apply inb_true_iff in Hp.
    cbn [Z.add]. rewrite get_crop_mask.
    repeat match goal with
           | |- context [?a <=? ?b] => destruct (Z.leb_spec a b)
           end; cbn [andb]; try reflexivity; lia.
  - intros i j k Hp Hlast. rewrite Hshape in Hp. apply inb_true_iff in Hp.
    rewrite get_crop_mask.
    repeat match goal with
           | |- context [?a <=? ?b] => destruct (Z.leb_spec a b)
           end; cbn [andb]; try reflexivity; lia.
Qed.

Lemma crop_mask_shape_padding_witness :
  crop_rule 1 [[[true; false]; [false; true]]] (0, 0, 0) (0, 1, 1).
Proof.
  apply (crop_mask_shape_padding _ (1, 2, 2)%nat).
  - cbn. repeat constructor.
  - cbn. lia.
Defined.

(** C5 as stated fails: with the copied block ending at [len - 2] the
    cells [[0 .. len-2)] of the crop are one short, on every axis, of the
    source sub-volume [[min .. max]]. *)
Lemma crop_rule_as_stated_fails :
  ~ crop_rule 2 [[[true]]] (0, 0, 0) (0, 0, 0).
Proof. intros (_ & H & _). discriminate H. Qed.

(** ** The summarizer *)

Lemma Rltb_true_iff (a b : R) : Rltb a b = true <-> (a < b)%R.
Proof. unfold Rltb. destruct (Rlt_dec a b); split; auto; discriminate. Qed.

Lemma Rleb_true_iff (a b : R) : Rleb a b = true <-> (a <= b)%R.
Proof. unfold Rleb. destruct (Rle_dec a b); split; auto; discriminate. Qed.

Lemma Rltb_false_iff (a b : R) : Rltb a b = false <-> (b <= a)%R.
Proof.
  unfold Rltb. destruct (Rlt_dec a b); split; auto; try discriminate; lra.
Qed.

Lemma Rleb_false_iff (a b : R) : Rleb a b = false <-> (b < a)%R.
Proof.
  unfold Rleb. destruct (Rle_dec a b); split; auto; try discriminate; lra.
Qed.

(** Away from not-a-number, [x < c] and [x >= c] are complementary. *)
Lemma flt_negb_fge (x : float) (c : R) : x <> NaN -> flt x c = negb (fge x c).
Proof.
  destruct x as [r | | | ]; cbn; try reflexivity; [ | congruence].
  intros _. destruct (Rleb c r) eqn:E.
  - apply Rleb_true_iff in E. apply Rltb_false_iff. exact E.
  - apply Rleb_false_iff in E. apply Rltb_true_iff. exact E.
Qed.

Lemma flt_mono (x : float) (c c' : R) :
  (c <= c')%R -> flt x c = true -> flt x c' = true.
Proof.
  destruct x as [r | | | ]; cbn; auto.
  rewrite !Rltb_true_iff. lra.
Qed.

Lemma count_complement {A} (f g : A -> bool) (l : list A) :
  (forall x, In x l -> f x = negb (g x)) ->
  (count f l + count g l = length l)%nat.
Proof.
  unfold count. induction l as [ | x l IH]; intros H; [reflexivity | ].
  cbn. rewrite (H x) by now left.
  specialize (IH (fun y Hy => H y (or_intror Hy))).
  destruct (g x); cbn; lia.
Qed.

Lemma count_le {A} (f g : A -> bool) (l : list A) :
  (forall x, In x l -> f x = true -> g x = true) ->
  (count f l <= count g l)%nat.
Proof.
  unfold count. induction l as [ | x l IH]; intros H; [reflexivity | ].
  specialize (IH (fun y Hy => H y (or_intror Hy))).
  cbn. destruct (f x) eqn:Ef.
  - rewrite (H x) by (auto; now left). cbn. lia.
  - destruct (g x); cbn; lia.
Qed.

Section SummarizerProperties.

Variables patient_id lesion_id : Type.
Variable nanquantile : list float -> R -> float.
Variable nanmedian : list float -> float.

(** On a non-empty distance list the summarizer returns a record. *)
Lemma summarize_returns patient lesion sd :
  distances_gt_to_pred sd <> [] ->
  exists r,
    summarize_surface_dists patient_id lesion_id nanquantile nanmedian
      patient lesion sd = Ok r.
Proof.
  intros H. unfold summarize_surface_dists.
  destruct (distances_gt_to_pred sd) as [ | d l]; [congruence | ].
  cbn. eexists. reflexivity.
Qed.

(** C6 (amended). Coverage-fraction identities: for every non-empty
    distance list without not-a-number values the summarizer returns a
    record whose fractions satisfy
    [x_equal_greater_than_0m + x_equal_greater_than_5m = 1] and
    [x_less_than_0mm <= x_equal_greater_than_0m]. *)
Theorem coverage_fractions patient lesion sd :
  distances_gt_to_pred sd <> [] ->
  (forall d, In d (distances_gt_to_pred sd) -> d <> NaN) ->
  exists r,
    summarize_surface_dists patient_id lesion_id nanquantile nanmedian
      patient lesion sd = Ok r /\
    (x_equal_greater_than_0m _ _ r + x_equal_greater_than_5m _ _ r = 1)%R /\
    (x_less_than_0mm _ _ r <= x_equal_greater_than_0m _ _ r)%R.
Proof.
  intros Hne Hnan. unfold summarize_surface_dists.
  destruct (distances_gt_to_pred sd) as [ | d l] eqn:E; [congruence | ].
  cbn [nanmin nanmax bind]. eexists. split; [reflexivity | ].
  cbn [x_equal_greater_than_0m x_equal_greater_than_5m x_less_than_0mm].
  set (ds := d :: l) in *.
  assert (Hn : (0 < INR (length ds))%R) by (apply lt_0_INR; cbn; lia).
  split.
  - rewrite <- Rdiv_plus_distr, <- plus_INR.
    rewrite (count_complement (fun d => flt d 5) (fun d => fge d 5)).
    + field. lra.
    + intros x Hx. apply flt_negb_fge. auto.
  - apply Rmult_le_compat_r; [left; now apply Rinv_0_lt_compat | ].
    apply le_INR. apply count_le. intros x _. apply flt_mono. lra.
Qed.

(** C10. The summary record is a function of [distances_gt_to_pred]
    alone: two inputs that agree on that entry (with the same patient
    and lesion identifiers) give the same result, whatever their other
    entries hold. *)
Theorem summary_depends_on_gt_to_pred_only patient lesion sd1 sd2 :
  distances_gt_to_pred sd1 = distances_gt_to_pred sd2 ->
  summarize_surface_dists patient_id lesion_id nanquantile nanmedian
    patient lesion sd1
  = summarize_surface_dists patient_id lesion_id nanquantile nanmedian
      patient lesion sd2.
Proof.
  intros H. unfold summarize_surface_dists. now rewrite H.
Qed.

End SummarizerProperties.

Lemma coverage_fractions_witness :
  exists r,
    summarize_surface_dists nat nat (fun _ _ => NaN) (fun _ => NaN) 1%nat 1%nat
      (dict_of_lists [Fin 1; Fin 7] []) = Ok r /\
    (x_equal_greater_than_0m _ _ r + x_equal_greater_than_5m _ _ r = 1)%R /\
    (x_less_than_0mm _ _ r <= x_equal_greater_than_0m _ _ r)%R.
Proof.
  apply (coverage_fractions nat nat (fun _ _ => NaN) (fun _ => NaN) 1%nat 1%nat
           (dict_of_lists [Fin 1; Fin 7] [])).
  - discriminate.
  - intros d [<- | [<- | []]]; discriminate.
Defined.

(** C6 as stated fails on a list that holds not-a-number: it is counted
    in [nr_voxels] and in neither of the two fractions, which then sum to
    one half. *)
Lemma coverage_fractions_nan_counterexample :
  exists r,
    summarize_surface_dists nat nat (fun _ _ => NaN) (fun _ => NaN) 1%nat 1%nat
      (dict_of_lists [NaN; Fin 1] []) = Ok r /\
    (x_equal_greater_than_0m _ _ r + x_equal_greater_than_5m _ _ r <> 1)%R.
Proof.
  eexists. split; [reflexivity | ].
  cbn [x_equal_greater_than_0m x_equal_greater_than_5m dict_of_lists
       distances_gt_to_pred length].
  assert (H5 : Rltb 1 5 = true) by (apply Rltb_true_iff; lra).
  assert (H5' : Rleb 5 1 = false) by (apply Rleb_false_iff; lra).
  unfold count. cbn [filter flt fge]. rewrite H5, H5'. cbn. lra.
Qed.

Lemma summary_depends_on_gt_to_pred_only_witness :
  summarize_surface_dists nat nat (fun _ _ => NaN) (fun _ => NaN) 1%nat 1%nat
    (dict_of_lists [Fin 1] [])
  = summarize_surface_dists nat nat (fun _ _ => NaN) (fun _ => NaN) 1%nat 1%nat
      (dict_of_lists [Fin 1] [Fin 3; PInf]).
Proof.
  apply (summary_depends_on_gt_to_pred_only nat nat (fun _ _ => NaN) (fun _ => NaN)
           1%nat 1%nat (dict_of_lists [Fin 1] []) (dict_of_lists [Fin 1] [Fin 3; PInf])).
  reflexivity.
Defined.

(** ** The shape of what [compute_distances] returns *)

(** A successful run, field by field. *)
Lemma compute_distances_Ok gt pred ez sp conn crop thr r :
  compute_distances gt pred ez sp conn crop thr = Ok r ->
  exists g p e,
    crop_inputs gt pred ez crop = Ok (g, p, e) /\
    any (extract_borders p conn) = true /\
    distances_gt_to_pred r
      = select NaN (distance_map p conn sp) (masked_borders g e conn sp thr) /\
    distances_pred_to_gt r
      = select NaN (distance_map g conn sp) (masked_borders p e conn sp thr) /\
    borders_gt r = masked_borders g e conn sp thr /\
    borders_pred r = masked_borders p e conn sp thr /\
    distmap_gt r = distance_map g conn sp /\
    distmap_pred r = distance_map p conn sp /\
    distmask_pred r = distmask_of p /\
    border_exclusion r = option_map (fun z => extract_borders z conn) e /\
    distmap_exclusion r = option_map (fun z => exclusion_map z conn sp) e.
Proof.
  unfold compute_distances.
  destruct (crop_inputs gt pred ez crop) as [[[g p] e] | err]; [ | discriminate].
  cbn [bind]. intros H. exists g, p, e. split; [reflexivity | ].
  unfold distance_map, masked_borders, exclusion_map.
  destruct (any (extract_borders p conn)); [ | destruct e; discriminate].
  split; [reflexivity | ].
  destruct e; inversion H; subst; cbn; repeat split; reflexivity.
Qed.

(** The run succeeds exactly when the crop stage does and the predicted
    borders are non-empty. *)
Lemma compute_distances_returns gt pred ez sp conn crop thr g p e :
  crop_inputs gt pred ez crop = Ok (g, p, e) ->
  any (extract_borders p conn) = true ->
  exists r, compute_distances gt pred ez sp conn crop thr = Ok r.
Proof.
  intros Hc Hp. unfold compute_distances. rewrite Hc. cbn [bind].
  rewrite Hp. destruct e; eexists; reflexivity.
Qed.

(** With empty predicted borders [distmask_pred] is never assigned and the
    return statement raises. *)
Lemma compute_distances_empty_pred gt pred ez sp conn crop thr g p e :
  crop_inputs gt pred ez crop = Ok (g, p, e) ->
  any (extract_borders p conn) = false ->
  compute_distances gt pred ez sp conn crop thr = Err UnboundLocalError.
Proof.
  intros Hc Hp. unfold compute_distances. rewrite Hc. cbn [bind].
  rewrite Hp. now destruct e.
Qed.

(** C3. Degenerate-surface sentinel, on an input the claim covers: the
    predicted region is empty, so its boundary shell is empty; with or
    without cropping the call does not return the infinite map but raises
    UnboundLocalError. *)
Theorem compute_distances_empty_pred_raises (crop : bool) :
  compute_distances [[[true; false]]] [[[false; false]]] None
    (1%R, 1%R, 1%R) 1 crop 5%R
  = Err UnboundLocalError.
Proof. destruct crop; reflexivity. Qed.

(** ** Shapes *)

Lemma shape_tabulate_shape {A B} (a : vol A) (f : idx -> B) :
  shape (tabulate (shape a) f) = shape a.
Proof.
  unfold shape at 2 3. destruct a as [ | p a]; [reflexivity | ].
  destruct p as [ | r p]; cbn [hd length].
  - unfold tabulate, shape. rewrite length_tab. reflexivity.
  - apply shape_tabulate; lia.
Qed.

Lemma shape_zip_with {A B C} (da : A) (db : B) (f : A -> B -> C) a b :
  shape (zip_with da db f a b) = shape a.
Proof. apply shape_tabulate_shape. Qed.

Lemma shape_extract_borders (mask : vol bool) (connectivity : Z) :
  shape (extract_borders mask connectivity) = shape mask.
Proof. apply shape_zip_with. Qed.

Lemma shape_clear_where (a cond : vol bool) : shape (clear_where a cond) = shape a.
Proof. apply shape_tabulate_shape. Qed.

Lemma get_zip_with {A B C} (da : A) (db : B) (dc : C) (f : A -> B -> C) a b p :
  get dc (zip_with da db f a b) p =
  if inb (shape a) p then f (get da a p) (get db b p) else dc.
Proof. unfold zip_with. now rewrite get_tabulate. Qed.

Lemma get_clear_where (a cond : vol bool) (p : idx) :
  get false (clear_where a cond) p =
  inb (shape a) p && negb (get false cond p) && get false a p.
Proof.
  unfold clear_where. rewrite get_tabulate.
  destruct (inb (shape a) p), (get false cond p); reflexivity.
Qed.

Lemma get_invert_invert (b : vol bool) (p : idx) :
  get false (invert (invert b)) p = get false b p.
Proof.
  unfold invert.
  change false with (negb true) at 1. rewrite get_map3.
  change true with (negb false) at 1. rewrite get_map3.
  apply negb_involutive.
Qed.

Lemma In_background (b : vol bool) (q : idx) :
  In q (argwhere (invert (invert b))) <->
  inb (shape b) q = true /\ get false b q = true.
Proof.
  rewrite In_argwhere. unfold invert at 1 2. rewrite !shape_map3.
  now rewrite get_invert_invert.
Qed.

(** A cell that is set lies inside the array's shape. *)
Lemma get_true_inb (v : vol bool) (sh : nat * nat * nat) (p : idx) :
  has_shape v sh -> get false v p = true -> inb sh p = true.
Proof.
  intros Hs Hg. destruct (inb sh p) eqn:E; [reflexivity | ].
  rewrite (get_outside false v sh p Hs E) in Hg. discriminate.
Qed.

Lemma get_borders_inb (mask : vol bool) (connectivity : Z) (p : idx) :
  get false (extract_borders mask connectivity) p = true ->
  inb (shape mask) p = true.
Proof.
  rewrite get_extract_borders. intros H. now apply andb_true_iff in H.
Qed.

(** ** The distance transform *)

Lemma dist_nonneg sp p q : (0 <= ndimage.dist sp p q)%R.
Proof.
  destruct sp as [[s0 s1] s2], p as [[i j] k], q as [[a b] c].
  cbn. apply sqrt_pos.
Qed.

Lemma dist_self sp p : ndimage.dist sp p p = 0%R.
Proof.
  destruct sp as [[s0 s1] s2], p as [[i j] k]. cbn.
  rewrite !Z.sub_diag.
  replace (0 * s0 * (0 * s0) + 0 * s1 * (0 * s1) + 0 * s2 * (0 * s2))%R
    with 0%R by lra.
  apply sqrt_0.
Qed.

Lemma fold_left_Rmin_spec (l : list R) (a : R) :
  In (fold_left Rmin l a) (a :: l) /\
  forall y, In y (a :: l) -> (fold_left Rmin l a <= y)%R.
Proof.
  revert a. induction l as [ | x l IH]; intros a; cbn [fold_left].
  - split; [now left | ]. intros y [<- | []]. lra.
  - destruct (IH (Rmin a x)) as [Hin Hle]. split.
    + destruct Hin as [Hin | Hin]; [ | right; now right].
      rewrite <- Hin. unfold Rmin. destruct (Rle_dec a x); [now left | right; now left].
    + intros y [<- | [<- | Hy]].
      * eapply Rle_trans; [apply Hle; now left | apply Rmin_l].
      * eapply Rle_trans; [apply Hle; now left | apply Rmin_r].
      * apply Hle. now right.
Qed.

Lemma min_dist_spec sp p (l : list idx) :
  l <> [] ->
  In (ndimage.min_dist sp p l) (map (ndimage.dist sp p) l) /\
  forall q, In q l -> (ndimage.min_dist sp p l <= ndimage.dist sp p q)%R.
Proof.
  destruct l as [ | q qs]; [congruence | ]. intros _.
  unfold ndimage.min_dist.
  destruct (fold_left_Rmin_spec (map (ndimage.dist sp p) qs) (ndimage.dist sp p q))
    as [Hin Hle].
  split; [exact Hin | ].
  intros q' Hq'. apply Hle. change (In (ndimage.dist sp p q') (map (ndimage.dist sp p) (q :: qs))).
  now apply in_map.
Qed.

Lemma min_dist_nonneg sp p l : (0 <= ndimage.min_dist sp p l)%R.
Proof.
  destruct l as [ | q qs] eqn:E; [apply dist_nonneg | ]. rewrite <- E.
  destruct (min_dist_spec sp p l) as [Hin _]; [congruence | ].
  apply in_map_iff in Hin as (x & <- & _). apply dist_nonneg.
Qed.

(** The minimum over a list is set by the list's elements alone. *)
Lemma min_dist_ext sp p l sp' p' l' :
  l <> [] -> l' <> [] ->
  (forall x, In x (map (ndimage.dist sp p) l) <-> In x (map (ndimage.dist sp' p') l')) ->
  ndimage.min_dist sp p l = ndimage.min_dist sp' p' l'.
Proof.
  intros Hl Hl' H.
  destruct (min_dist_spec sp p l Hl) as [Hin Hle].
  destruct (min_dist_spec sp' p' l' Hl') as [Hin' Hle'].
  apply Rle_antisym.
  - apply H in Hin'. apply in_map_iff in Hin' as (q & <- & Hq). now apply Hle.
  - apply H in Hin. apply in_map_iff in Hin as (q & <- & Hq). now apply Hle'.
Qed.

Lemma get_distance_transform_edt (input : vol bool) sp (p : idx) :
  get NaN (ndimage.distance_transform_edt input sp) p =
  if inb (shape input) p
  then Fin (ndimage.min_dist sp p (argwhere (invert input)))
  else NaN.
Proof. unfold ndimage.distance_transform_edt. now rewrite get_tabulate. Qed.

Lemma get_distmask_of (mask : vol bool) (p : idx) :
  get (-1) (distmask_of mask) p = if get false mask p then 1 else -1.
Proof.
  unfold distmask_of, astype_int8.
  change (-1) with ((fun z => if z =? 0 then -1 else z) (Z.b2z false)) at 1.
  rewrite !get_map3. now destruct (get false mask p).
Qed.

Lemma get_signed_distmap (mask borders : vol bool) sp (p : idx) :
  get NaN (signed_distmap mask borders sp) p =
  if inb (shape borders) p
  then Fin (ndimage.min_dist sp p (argwhere (invert (invert borders)))
            * IZR (if get false mask p then 1 else -1))
  else NaN.
Proof.
  unfold signed_distmap. rewrite get_zip_with.
  unfold ndimage.distance_transform_edt at 1. rewrite shape_tabulate_shape.
  unfold invert at 1. rewrite shape_map3.
  destruct (inb (shape borders) p) eqn:E; [ | reflexivity].
  rewrite get_distance_transform_edt. unfold invert at 1. rewrite shape_map3, E.
  rewrite get_distmask_of. reflexivity.
Qed.

Lemma get_inf_map (sh : nat * nat * nat) (p : idx) :
  get NaN (inf_map sh) p = if inb sh p then PInf else NaN.
Proof. unfold inf_map. now rewrite get_tabulate. Qed.

Lemma get_distance_map (mask : vol bool) conn sp (p : idx) :
  get NaN (distance_map mask conn sp) p =
  if inb (shape mask) p then
    if any (extract_borders mask conn)
    then Fin (ndimage.min_dist sp p
                (argwhere (invert (invert (extract_borders mask conn))))
              * IZR (if get false mask p then 1 else -1))
    else PInf
  else NaN.
Proof.
  unfold distance_map. destruct (any (extract_borders mask conn)).
  - rewrite get_signed_distmap. now rewrite shape_extract_borders.
  - rewrite get_inf_map. now rewrite shape_extract_borders.
Qed.

(** ** The sign of the distance maps *)


Lemma min_dist_on_borders sp (borders : vol bool) (q : idx) :
  get false borders q = true -> inb (shape borders) q = true ->
  ndimage.min_dist sp q (argwhere (invert (invert borders))) = 0%R.
Proof.
  intros Hg Hin.
  assert (Hq : In q (argwhere (invert (invert borders))))
    by (apply In_background; auto).
  destruct (min_dist_spec sp q (argwhere (invert (invert borders)))) as [_ Hle].
  { intros E. rewrite E in Hq. destruct Hq. }
  specialize (Hle q Hq). rewrite dist_self in Hle.
  pose proof (min_dist_nonneg sp q (argwhere (invert (invert borders)))).
  lra.
Qed.




(** Distances along the last axis under unit spacing. *)
Lemma dist_axis2 (i j k c : Z) :
  ndimage.dist (1%R, 1%R, 1%R) (i, j, k) (i, j, c) = Rabs (IZR (c - k)).
Proof.
  cbn. rewrite !Z.sub_diag.
  replace (0 * 1 * (0 * 1) + 0 * 1 * (0 * 1) + IZR (c - k) * 1 * (IZR (c - k) * 1))%R
    with (Rsqr (IZR (c - k))) by (unfold Rsqr; lra).
  apply sqrt_Rsqr_abs.
Qed.

Lemma Rabs_IZR (z : Z) : Rabs (IZR z) = IZR (Z.abs z).
Proof. symmetry. apply abs_IZR. Qed.


(** ** The exclusion masker *)

Lemma get_below (distmap : vol float) (thr : R) (q : idx) :
  get false (below distmap thr) q = flt (get NaN distmap q) thr.
Proof.
  unfold below. change false with ((fun x => flt x thr) NaN) at 1.
  exact (get_map3 (fun x => flt x thr) NaN distmap q).
Qed.

Lemma masked_borders_rule (mask ez : vol bool) conn sp thr :
  masker_rule (fun q => flt (get NaN (exclusion_map ez conn sp) q) thr)
    (extract_borders mask conn)
    (masked_borders mask (Some ez) conn sp thr).
Proof.
  intros q. unfold masked_borders. rewrite get_clear_where, get_below.
  rewrite shape_extract_borders.
  destruct (get false (extract_borders mask conn) q) eqn:E.
  - rewrite (get_borders_inb _ _ _ E). cbn. now rewrite andb_true_r.
  - now rewrite andb_false_r.
Qed.

Lemma get_boundary_distance (ez : vol bool) conn sp (q : idx) :
  get NaN (boundary_distance ez conn sp) q =
  if inb (shape ez) q
  then Fin (ndimage.min_dist sp q
              (argwhere (invert (invert (extract_borders ez conn)))))
  else NaN.
Proof.
  unfold boundary_distance. rewrite get_distance_transform_edt.
  unfold invert at 1. now rewrite shape_map3, shape_extract_borders.
Qed.

(** Under a positive threshold the signed exclusion map is below the
    threshold at every cell outside the zone, and at a cell inside it
    exactly when the cell is closer than the threshold to the boundary. *)
Lemma exclusion_map_below (ez : vol bool) conn sp thr (q : idx) :
  (0 < thr)%R -> inb (shape ez) q = true ->
  flt (get NaN (exclusion_map ez conn sp) q) thr =
  negb (get false ez q) || flt (get NaN (boundary_distance ez conn sp) q) thr.
Proof.
  intros Hthr Hq. unfold exclusion_map.
  rewrite get_signed_distmap, get_boundary_distance, shape_extract_borders, Hq.
  pose proof (min_dist_nonneg sp q
                (argwhere (invert (invert (extract_borders ez conn))))) as Hnn.
  destruct (get false ez q); cbn [negb orb flt].
  - f_equal. lra.
  - apply Rltb_true_iff. lra.
Qed.

(** C2 (amended). Exclusion Masker semantics: when an exclusion zone is
    supplied, a voxel of either boundary shell is zeroed if and only if
    the zone's signed distance map at that voxel is below the threshold,
    and no other shell voxel is removed.  For a positive threshold these
    are the shell voxels outside the exclusion zone, at any distance, and
    the shell voxels inside it whose physical distance to the zone's
    boundary is below the threshold. *)
Theorem exclusion_masker gt pred ez sp conn crop thr r g p e :
  compute_distances gt pred (Some ez) sp conn crop thr = Ok r ->
  crop_inputs gt pred (Some ez) crop = Ok (g, p, Some e) ->
  distmap_exclusion r = Some (exclusion_map e conn sp) /\
  masker_rule (fun q => flt (get NaN (exclusion_map e conn sp) q) thr)
    (extract_borders g conn) (borders_gt r) /\
  masker_rule (fun q => flt (get NaN (exclusion_map e conn sp) q) thr)
    (extract_borders p conn) (borders_pred r) /\
  ((0 < thr)%R ->
   forall q, inb (shape e) q = true ->
     flt (get NaN (exclusion_map e conn sp) q) thr =
     negb (get false e q) || flt (get NaN (boundary_distance e conn sp) q) thr).
Proof.
  intros Hr Hc.
  apply compute_distances_Ok in Hr
    as (g' & p' & e' & Hc' & _ & _ & _ & Hbg & Hbp & _ & _ & _ & _ & Hde).
  rewrite Hc in Hc'. inversion Hc'; subst g' p' e'.
  rewrite Hbg, Hbp, Hde. repeat split.
  - apply masked_borders_rule.
  - apply masked_borders_rule.
  - intros Hthr q Hq. now apply exclusion_map_below.
Qed.

Lemma exclusion_masker_witness :
  exists r,
    compute_distances (line [false; false; true]) (line [false; true; true])
      (Some (line [true; true; false])) (1%R, 1%R, 1%R) 1 false 1%R = Ok r /\
    distmap_exclusion r
    = Some (exclusion_map (line [true; true; false]) 1 (1%R, 1%R, 1%R)) /\
    masker_rule
      (fun q => flt (get NaN (exclusion_map (line [true; true; false]) 1
                                (1%R, 1%R, 1%R)) q) 1)
      (extract_borders (line [false; false; true]) 1) (borders_gt r) /\
    masker_rule
      (fun q => flt (get NaN (exclusion_map (line [true; true; false]) 1
                                (1%R, 1%R, 1%R)) q) 1)
      (extract_borders (line [false; true; true]) 1) (borders_pred r) /\
    ((0 < 1)%R ->
     forall q, inb (shape (line [true; true; false])) q = true ->
       flt (get NaN (exclusion_map (line [true; true; false]) 1 (1%R, 1%R, 1%R)) q) 1 =
       negb (get false (line [true; true; false]) q)
       || flt (get NaN (boundary_distance (line [true; true; false]) 1
                          (1%R, 1%R, 1%R)) q) 1).
Proof.
  eexists. split; [reflexivity | ].
  apply (exclusion_masker (line [false; false; true]) (line [false; true; true])
           (line [true; true; false]) (1%R, 1%R, 1%R) 1 false 1%R _
           (line [false; false; true]) (line [false; true; true])
           (line [true; true; false])); reflexivity.
Defined.

(** C2 as stated fails: the target's shell voxel (0, 0, 5) lies outside
    the exclusion zone, at distance 5 from the zone's boundary, which is
    not below the threshold 5; it is zeroed all the same, because the
    signed map is -5 there. *)
Lemma exclusion_rule_as_stated_fails :
  exists r,
    compute_distances (line [false; false; false; false; false; true])
      (line [false; false; false; false; false; true])
      (Some (line [true; false; false; false; false; false]))
      (1%R, 1%R, 1%R) 1 false 5%R = Ok r /\
    get false (extract_borders (line [false; false; false; false; false; true]) 1)
      (0, 0, 5) = true /\
    get NaN (boundary_distance (line [true; false; false; false; false; false]) 1
               (1%R, 1%R, 1%R)) (0, 0, 5) = Fin 5 /\
    get false (borders_gt r) (0, 0, 5) = false /\
    ~ masker_rule
        (fun q => flt (get NaN (boundary_distance
                                  (line [true; false; false; false; false; false]) 1
                                  (1%R, 1%R, 1%R)) q) 5)
        (extract_borders (line [false; false; false; false; false; true]) 1)
        (borders_gt r).
Proof.
  set (gt := line [false; false; false; false; false; true]).
  set (ez := line [true; false; false; false; false; false]).
  destruct (compute_distances_returns gt gt (Some ez) (1%R, 1%R, 1%R) 1 false 5%R
              gt gt (Some ez) eq_refl eq_refl) as [r Hr].
  exists r. split; [exact Hr | ].
  apply compute_distances_Ok in Hr
    as (g & p & e & Hc & _ & _ & _ & Hbg & _).
  cbn in Hc. inversion Hc; subst g p e. clear Hc. rewrite Hbg.
  assert (Hd : get NaN (boundary_distance ez 1 (1%R, 1%R, 1%R)) (0, 0, 5) = Fin 5).
  { rewrite get_boundary_distance.
    change (inb (shape ez) (0, 0, 5)) with true.
    change (argwhere (invert (invert (extract_borders ez 1)))) with [(0, 0, 0)].
    cbv iota. unfold ndimage.min_dist. cbn [map fold_left].
    rewrite dist_axis2, Rabs_IZR. reflexivity. }
  assert (Hm : get false (masked_borders gt (Some ez) 1 (1%R, 1%R, 1%R) 5) (0, 0, 5)
               = false).
  { rewrite (masked_borders_rule gt ez 1 (1%R, 1%R, 1%R) 5 (0, 0, 5)).
    rewrite exclusion_map_below by (lra || reflexivity).
    change (get false ez (0, 0, 5)) with false. cbn [negb orb].
    apply andb_false_r. }
  split; [reflexivity | ]. split; [exact Hd | ]. split; [exact Hm | ].
  intros H. specialize (H (0, 0, 5)). cbv beta in H.
  rewrite Hm, Hd in H.
  change (get false (extract_borders gt 1) (0, 0, 5)) with true in H.
  cbn [flt] in H.
  assert (H5 : Rltb 5 5 = false) by (apply Rltb_false_iff; lra).
  rewrite H5 in H. discriminate H.
Qed.

(** ** Swapping the two regions *)

Lemma has_shape_shape_eq {A B} (v : vol A) (w : vol B) (sh : nat * nat * nat) :
  has_shape v sh -> has_shape w sh -> shape v = shape w.
Proof.
  destruct sh as [[n0 n1] n2]. unfold has_shape, shape. intros [Hv Fv] [Hw Fw].
  destruct v as [ | p v], w as [ | p' w]; cbn in *; try lia; [reflexivity | ].
  inversion Fv as [ | ? ? [Hp Fp] _]; inversion Fw as [ | ? ? [Hp' Fp'] _]; subst.
  destruct p as [ | r p], p' as [ | r' p']; cbn in *; try lia; [f_equal; f_equal; lia | ].
  inversion Fp; inversion Fp'; subst. f_equal; [f_equal; lia | lia].
Qed.

Lemma get_logical_or (a b : vol bool) (p : idx) :
  get false (logical_or a b) p =
  inb (shape a) p && (get false a p || get false b p).
Proof.
  unfold logical_or. rewrite get_zip_with. now destruct (inb (shape a) p).
Qed.

Lemma logical_or_ext (a b a' b' : vol bool) :
  shape a = shape a' ->
  (forall p, inb (shape a) p = true ->
             get false a p || get false b p = get false a' p || get false b' p) ->
  logical_or a b = logical_or a' b'.
Proof.
  intros Hs H. unfold logical_or, zip_with. rewrite <- Hs.
  apply tabulate_ext. exact H.
Qed.

(** The union taken by the bounding box does not change when the target
    and the prediction trade places, with or without an exclusion zone. *)
Lemma union_swap (gt pred ez : vol bool) (sh : nat * nat * nat) :
  has_shape gt sh -> has_shape pred sh ->
  logical_or (logical_or gt pred) ez = logical_or (logical_or pred gt) ez.
Proof.
  intros Hg Hp. pose proof (has_shape_shape_eq gt pred sh Hg Hp) as Hs.
  apply logical_or_ext.
  - unfold logical_or. now rewrite !shape_zip_with.
  - intros q _. rewrite !get_logical_or, Hs. now rewrite (orb_comm (get false gt q)).
Qed.

Lemma union_swap_self (gt pred : vol bool) (sh : nat * nat * nat) :
  has_shape gt sh -> has_shape pred sh ->
  logical_or (logical_or gt pred) gt = logical_or (logical_or pred gt) pred.
Proof.
  intros Hg Hp. pose proof (has_shape_shape_eq gt pred sh Hg Hp) as Hs.
  apply logical_or_ext.
  - unfold logical_or. now rewrite !shape_zip_with.
  - intros q Hq. unfold logical_or in Hq. rewrite shape_zip_with, Hs in Hq.
    rewrite !get_logical_or, Hs, Hq.
    destruct (get false gt q), (get false pred q); reflexivity.
Qed.

Lemma compute_bounding_box_union (a b c a' b' c' : vol bool) :
  logical_or (logical_or a b) c = logical_or (logical_or a' b') c' ->
  compute_bounding_box a b c = compute_bounding_box a' b' c'.
Proof. intros H. unfold compute_bounding_box. now rewrite H. Qed.

Lemma crop_inputs_swap (gt pred : vol bool) (ez : option (vol bool)) (crop : bool)
  (sh : nat * nat * nat) :
  has_shape gt sh -> has_shape pred sh ->
  crop_inputs pred gt ez crop =
  match crop_inputs gt pred ez crop with
  | Ok (g, p, e) => Ok (p, g, e)
  | Err x => Err x
  end.
Proof.
  intros Hg Hp. unfold crop_inputs. destruct crop; [ | reflexivity].
  destruct ez as [ez | ].
  - rewrite (compute_bounding_box_union pred gt ez gt pred ez)
      by (symmetry; now apply (union_swap gt pred ez sh)).
    now destruct (compute_bounding_box gt pred ez) as [[bmin bmax] | x].
  - rewrite (compute_bounding_box_union pred gt pred gt pred gt)
      by (symmetry; now apply (union_swap_self gt pred sh)).
    now destruct (compute_bounding_box gt pred gt) as [[bmin bmax] | x].
Qed.

(** X18. Symmetry under swap for runs that return: with the shape, the
    spacing, the connectivity, the crop flag, the exclusion zone and the
    threshold held fixed, when [compute_distances] returns for both orders
    of the target and the predicted volume, the list returned as
    [distances_gt_to_pred] in one order is the list returned as
    [distances_pred_to_gt] in the other, element for element. *)
Theorem swap_symmetry gt pred ez sp conn crop thr sh r r' :
  has_shape gt sh -> has_shape pred sh ->
  compute_distances gt pred ez sp conn crop thr = Ok r ->
  compute_distances pred gt ez sp conn crop thr = Ok r' ->
  distances_gt_to_pred r' = distances_pred_to_gt r /\
  distances_pred_to_gt r' = distances_gt_to_pred r.
Proof.
  intros Hg Hp Hr Hr'.
  apply compute_distances_Ok in Hr
    as (g & p & e & Hc & _ & Hgp & Hpg & _).
  apply compute_distances_Ok in Hr'
    as (g' & p' & e' & Hc' & _ & Hgp' & Hpg' & _).
  rewrite (crop_inputs_swap gt pred ez crop sh Hg Hp), Hc in Hc'.
  inversion Hc'; subst g' p' e'.
  rewrite Hgp, Hpg, Hgp', Hpg'. split; reflexivity.
Qed.

Lemma swap_symmetry_witness :
  exists r r',
    compute_distances (line [true; true; false]) (line [false; true; true]) None
      (1%R, 1%R, 1%R) 1 true 5%R = Ok r /\
    compute_distances (line [false; true; true]) (line [true; true; false]) None
      (1%R, 1%R, 1%R) 1 true 5%R = Ok r' /\
    distances_gt_to_pred r' = distances_pred_to_gt r /\
    distances_pred_to_gt r' = distances_gt_to_pred r.
Proof.
  eexists. eexists. split; [reflexivity | ]. split; [reflexivity | ].
  apply (swap_symmetry (line [true; true; false]) (line [false; true; true]) None
           (1%R, 1%R, 1%R) 1 true 5%R (1, 1, 3)%nat).
  - cbn. repeat constructor.
  - cbn. repeat constructor.
  - reflexivity.
  - reflexivity.
Defined.

(** C4. Symmetry under swap, on an input the claim covers: the target has
    a voxel and the predicted region is empty.  In this order the call
    raises UnboundLocalError and returns no lists; with the two volumes
    swapped it returns an empty [distances_gt_to_pred] and a
    [distances_pred_to_gt] holding +infinity.  The swap does not exchange
    the two lists, with or without cropping. *)
Theorem swap_breaks_on_empty_pred (crop : bool) :
  compute_distances [[[true; false]]] [[[false; false]]] None
    (1%R, 1%R, 1%R) 1 crop 5%R = Err UnboundLocalError /\
  exists r',
    compute_distances [[[false; false]]] [[[true; false]]] None
      (1%R, 1%R, 1%R) 1 crop 5%R = Ok r' /\
    distances_gt_to_pred r' = [] /\
    distances_pred_to_gt r' = [PInf].
Proof.
  destruct crop; (split; [reflexivity | ]);
    eexists; (split; [reflexivity | ]); split; reflexivity.
Qed.

(** ** The bounding box holds the union *)

Lemma fold_left_Zmin_le (l : list Z) (a y : Z) :
  In y (a :: l) -> fold_left Z.min l a <= y.
Proof.
  assert (H : forall l a, fold_left Z.min l a <= a /\
                          forall y, In y l -> fold_left Z.min l a <= y).
  { clear. induction l as [ | x l IH]; intros a; cbn [fold_left].
    - split; [lia | intros y []].
    - destruct (IH (Z.min a x)) as [H1 H2]. split; [lia | ].
      intros y [<- | Hy]; [lia | now apply H2]. }
  intros [Hy | Hy]; [subst; apply (proj1 (H l y)) | now apply (proj2 (H l a))].
Qed.

Lemma fold_left_Zmax_ge (l : list Z) (a y : Z) :
  In y (a :: l) -> y <= fold_left Z.max l a.
Proof.
  assert (H : forall l a, a <= fold_left Z.max l a /\
                          forall y, In y l -> y <= fold_left Z.max l a).
  { clear. induction l as [ | x l IH]; intros a; cbn [fold_left].
    - split; [lia | intros y []].
    - destruct (IH (Z.max a x)) as [H1 H2]. split; [lia | ].
      intros y [<- | Hy]; [lia | now apply H2]. }
  intros [Hy | Hy]; [subst; apply (proj1 (H l y)) | now apply (proj2 (H l a))].
Qed.

Lemma np_min_spec (l : list Z) (m y : Z) : np.min l = Ok m -> In y l -> m <= y.
Proof.
  destruct l as [ | x xs]; [discriminate | ]. cbn. intros H Hy.
  inversion H; subst. now apply fold_left_Zmin_le.
Qed.

Lemma np_max_spec (l : list Z) (m y : Z) : np.max l = Ok m -> In y l -> y <= m.
Proof.
  destruct l as [ | x xs]; [discriminate | ]. cbn. intros H Hy.
  inversion H; subst. now apply fold_left_Zmax_ge.
Qed.

Lemma np_min_Ok (l : list Z) (y : Z) : In y l -> exists m, np.min l = Ok m.
Proof. destruct l; [intros [] | intros _; eexists; reflexivity]. Qed.

Lemma np_max_Ok (l : list Z) (y : Z) : In y l -> exists m, np.max l = Ok m.
Proof. destruct l; [intros [] | intros _; eexists; reflexivity]. Qed.

Lemma In_nonzero (p : list bool) (i : Z) :
  In i (nonzero p) <-> 0 <= i < Z.of_nat (length p) /\ nthZ false p i = true.
Proof. unfold nonzero. now rewrite filter_In, In_range. Qed.

Lemma In_nonzero_proj (a : vol bool) (i j k : Z) :
  inb (shape a) (i, j, k) = true -> get false a (i, j, k) = true ->
  In i (nonzero (proj_axis0 a)) /\
  In j (nonzero (proj_axis1 a)) /\
  In k (nonzero (proj_axis2 a)).
Proof.
  intros Hin Hg. unfold proj_axis0, proj_axis1, proj_axis2.
  destruct (shape a) as [[n0 n1] n2]. apply inb_true_iff in Hin.
  destruct Hin as (Hi & Hj & Hk).
  assert (Hc : forall n x, 0 <= x < Z.of_nat n ->
                           (0 <=? x) && (x <? Z.of_nat n) = true).
  { intros n x Hx. apply andb_true_iff. rewrite Z.leb_le, Z.ltb_lt. lia. }
  repeat split; apply In_nonzero; rewrite length_tab, nthZ_tab, Hc by lia;
    (split; [lia | ]); apply existsb_exists.
  - exists j. split; [now apply In_range | ]. apply existsb_exists.
    exists k. split; [now apply In_range | exact Hg].
  - exists i. split; [now apply In_range | ]. apply existsb_exists.
    exists k. split; [now apply In_range | exact Hg].
  - exists i. split; [now apply In_range | ]. apply existsb_exists.
    exists j. split; [now apply In_range | exact Hg].
Qed.

Lemma get_union (a b c : vol bool) (q : idx) :
  get false (logical_or (logical_or a b) c) q =
  inb (shape a) q && (get false a q || get false b q || get false c q).
Proof.
  rewrite !get_logical_or. unfold logical_or. rewrite shape_zip_with.
  destruct (inb (shape a) q); reflexivity.
Qed.

Lemma shape_union (a b c : vol bool) :
  shape (logical_or (logical_or a b) c) = shape a.
Proof. unfold logical_or. now rewrite !shape_zip_with. Qed.

(** Every set cell of the union lies in the box that is returned. *)
Lemma bounding_box_contains (a b c : vol bool) (bbox_min bbox_max q : idx) :
  compute_bounding_box a b c = Ok (bbox_min, bbox_max) ->
  get false (logical_or (logical_or a b) c) q = true ->
  in_box bbox_min bbox_max q.
Proof.
  intros H Hg. destruct q as [[i j] k].
  assert (Hin : inb (shape (logical_or (logical_or a b) c)) (i, j, k) = true).
  { rewrite shape_union. rewrite get_union in Hg. now apply andb_true_iff in Hg. }
  destruct (In_nonzero_proj _ i j k Hin Hg) as (H0 & H1 & H2).
  unfold compute_bounding_box in H.
  destruct (np.min (nonzero (proj_axis0 _))) as [min0 | ] eqn:Emin0; [ | discriminate].
  destruct (np.max (nonzero (proj_axis0 _))) as [max0 | ] eqn:Emax0; [ | discriminate].
  destruct (np.min (nonzero (proj_axis1 _))) as [min1 | ] eqn:Emin1; [ | discriminate].
  destruct (np.max (nonzero (proj_axis1 _))) as [max1 | ] eqn:Emax1; [ | discriminate].
  destruct (np.min (nonzero (proj_axis2 _))) as [min2 | ] eqn:Emin2; [ | discriminate].
  destruct (np.max (nonzero (proj_axis2 _))) as [max2 | ] eqn:Emax2; [ | discriminate].
  cbn in H. inversion H; subst. unfold in_box.
  pose proof (np_min_spec _ _ _ Emin0 H0). pose proof (np_max_spec _ _ _ Emax0 H0).
  pose proof (np_min_spec _ _ _ Emin1 H1). pose proof (np_max_spec _ _ _ Emax1 H1).
  pose proof (np_min_spec _ _ _ Emin2 H2). pose proof (np_max_spec _ _ _ Emax2 H2).
  lia.
Qed.

(** A union with a set cell has a bounding box. *)
Lemma bounding_box_exists (a b c : vol bool) (q : idx) :
  get false (logical_or (logical_or a b) c) q = true ->
  exists bbox_min bbox_max, compute_bounding_box a b c = Ok (bbox_min, bbox_max).
Proof.
  intros Hg. destruct q as [[i j] k].
  assert (Hin : inb (shape (logical_or (logical_or a b) c)) (i, j, k) = true).
  { rewrite shape_union. rewrite get_union in Hg. now apply andb_true_iff in Hg. }
  destruct (In_nonzero_proj _ i j k Hin Hg) as (H0 & H1 & H2).
  unfold compute_bounding_box.
  destruct (np_min_Ok _ _ H0) as [min0 ->]. destruct (np_max_Ok _ _ H0) as [max0 ->].
  destruct (np_min_Ok _ _ H1) as [min1 ->]. destruct (np_max_Ok _ _ H1) as [max1 ->].
  destruct (np_min_Ok _ _ H2) as [min2 ->]. destruct (np_max_Ok _ _ H2) as [max2 ->].
  cbn. eauto.
Qed.

(** ** Cropping is a translation *)

Lemma get_true_inb_shape (v : vol bool) (sh : nat * nat * nat) (p : idx) :
  has_shape v sh -> get false v p = true -> inb (shape v) p = true.
Proof.
  intros Hs Hg. pose proof (get_true_inb v sh p Hs Hg) as Hin.
  destruct sh as [[n0 n1] n2], p as [[i j] k].
  rewrite (has_shape_shape v n0 n1 n2 Hs); [exact Hin | | ];
    apply inb_true_iff in Hin; lia.
Qed.

Lemma get_crop (mask : vol bool) (min0 min1 min2 max0 max1 max2 i j k : Z) :
  get false (astype_bool (crop_mask mask (min0, min1, min2) (max0, max1, max2)))
    (i, j, k) =
  (0 <=? i) && (i <=? max0 - min0) &&
  ((0 <=? j) && (j <=? max1 - min1)) &&
  ((0 <=? k) && (k <=? max2 - min2)) &&
  get false mask (i + min0, j + min1, k + min2).
Proof.
  unfold astype_bool.
  change false with ((fun z => negb (z =? 0)) 0) at 1.
  rewrite get_map3, get_crop_mask.
  rewrite (Z.add_comm min0), (Z.add_comm min1), (Z.add_comm min2).
  destruct ((0 <=? i) && (i <=? max0 - min0) &&
            ((0 <=? j) && (j <=? max1 - min1)) &&
            ((0 <=? k) && (k <=? max2 - min2))); [ | reflexivity].
  now destruct (get false mask (i + min0, j + min1, k + min2)).
Qed.

Lemma has_shape_crop (mask : vol bool) (bbox_min bbox_max : idx) :
  exists sh, has_shape (astype_bool (crop_mask mask bbox_min bbox_max)) sh /\
             forall mask', has_shape (astype_bool (crop_mask mask' bbox_min bbox_max)) sh.
Proof.
  destruct bbox_min as [[min0 min1] min2], bbox_max as [[max0 max1] max2].
  eexists. split; [ | intros mask'];
    unfold astype_bool, crop_mask; apply has_shape_map3, has_shape_tabulate.
Qed.

(** A crop to a box that holds every set cell of the region is the region
    seen from the box's lower corner. *)
Lemma crop_translated (mask : vol bool) (bbox_min bbox_max : idx) :
  (forall q, get false mask q = true -> in_box bbox_min bbox_max q) ->
  translated bbox_min (astype_bool (crop_mask mask bbox_min bbox_max)) mask.
Proof.
  destruct bbox_min as [[min0 min1] min2], bbox_max as [[max0 max1] max2].
  intros Hbox [[i j] k]. rewrite get_crop. cbn [shift].
  destruct (get false mask (i + min0, j + min1, k + min2)) eqn:E;
    [ | apply andb_false_r].
  specialize (Hbox _ E). cbn in Hbox. rewrite andb_true_r.
  repeat (apply andb_true_iff; split); apply Z.leb_le; lia.
Qed.

Lemma translated_refl (a : vol bool) : translated (0, 0, 0) a a.
Proof. intros [[i j] k]. cbn. now rewrite !Z.add_0_r. Qed.

(** Two views of one region are views of each other. *)
Lemma translated_via (t t' : idx) (a b m : vol bool) :
  translated t a m -> translated t' b m ->
  translated (let '(t0, t1, t2) := t in
              let '(s0, s1, s2) := t' in
              (t0 - s0, t1 - s1, t2 - s2)) a b.
Proof.
  destruct t as [[t0 t1] t2], t' as [[s0 s1] s2].
  intros Ha Hb [[i j] k]. rewrite (Ha (i, j, k)).
  rewrite (Hb (shift (i, j, k) (t0 - s0, t1 - s1, t2 - s2))). cbn [shift].
  idx_eq.
Qed.

(** ** Borders and distance maps of translated regions *)

Lemma forallb_ext_in {A} (f g : A -> bool) (l : list A) :
  (forall x, In x l -> f x = g x) -> forallb f l = forallb g l.
Proof.
  induction l as [ | x l IH]; intros H; [reflexivity | ]. cbn.
  rewrite (H x) by now left. f_equal. apply IH. intros; apply H; now right.
Qed.

(** On a rectangular region the borders are the set cells with an unset
    neighbour under the structuring element. *)
Lemma get_extract_borders_rect (mask : vol bool) (sh : nat * nat * nat)
  (conn : Z) (i j k : Z) :
  has_shape mask sh ->
  get false (extract_borders mask conn) (i, j, k) =
  get false mask (i, j, k) &&
  negb (forallb (fun '(a, b, c) =>
                   implb (get false (ndimage.generate_binary_structure conn) (a, b, c))
                         (get false mask (i + a - 1, j + b - 1, k + c - 1)))
                (indices (3, 3, 3)%nat)).
Proof.
  intros Hs. rewrite get_extract_borders.
  destruct (get false mask (i, j, k)) eqn:E.
  - rewrite (get_true_inb_shape _ _ _ Hs E), get_binary_erosion.
    rewrite (get_true_inb_shape _ _ _ Hs E). reflexivity.
  - destruct (get false (ndimage.binary_erosion mask
                           (ndimage.generate_binary_structure conn)) (i, j, k)) eqn:E'.
    + apply binary_erosion_subset in E'. congruence.
    + now rewrite andb_false_r.
Qed.

Lemma borders_translated (t : idx) (a b : vol bool) (sha shb : nat * nat * nat)
  (conn : Z) :
  has_shape a sha -> has_shape b shb -> translated t a b ->
  translated t (extract_borders a conn) (extract_borders b conn).
Proof.
  destruct t as [[t0 t1] t2]. intros Ha Hb Ht [[i j] k]. cbn [shift].
  rewrite (get_extract_borders_rect a sha conn i j k Ha).
  rewrite (get_extract_borders_rect b shb conn _ _ _ Hb).
  rewrite (Ht (i, j, k)). cbn [shift]. f_equal. f_equal.
  apply forallb_ext_in. intros [[x y] z] _. f_equal.
  rewrite (Ht (i + x - 1, j + y - 1, k + z - 1)). cbn [shift].
  idx_eq.
Qed.

Lemma unshift (q t : idx) :
  shift (let '(i, j, k) := q in
         let '(t0, t1, t2) := t in (i - t0, j - t1, k - t2)) t = q.
Proof.
  destruct q as [[i j] k], t as [[t0 t1] t2]. cbn.
  idx_eq.
Qed.

Lemma shift_inj (t q q' : idx) : shift q t = shift q' t -> q = q'.
Proof.
  destruct q as [[i j] k], q' as [[i' j'] k'], t as [[t0 t1] t2]. cbn.
  intros H. inversion H. idx_eq.
Qed.

Lemma dist_shift sp (p q t : idx) :
  ndimage.dist sp (shift p t) (shift q t) = ndimage.dist sp p q.
Proof.
  destruct sp as [[s0 s1] s2], p as [[i j] k], q as [[a b] c], t as [[t0 t1] t2].
  cbn.
  replace (a + t0 - (i + t0)) with (a - i) by lia.
  replace (b + t1 - (j + t1)) with (b - j) by lia.
  replace (c + t2 - (k + t2)) with (c - k) by lia.
  reflexivity.
Qed.

Lemma In_background_borders (mask : vol bool) (conn : Z) (q : idx) :
  In q (argwhere (invert (invert (extract_borders mask conn)))) <->
  get false (extract_borders mask conn) q = true.
Proof.
  rewrite In_background. split; [tauto | ]. intros H. split; [ | exact H].
  rewrite shape_extract_borders. now apply get_borders_inb in H.
Qed.

Lemma any_borders_iff (mask : vol bool) (conn : Z) :
  any (extract_borders mask conn) = true <->
  exists q, get false (extract_borders mask conn) q = true.
Proof.
  rewrite any_true_iff. split.
  - intros (q & _ & H). eauto.
  - intros (q & H). exists q. split; [ | exact H].
    rewrite shape_extract_borders. now apply get_borders_inb in H.
Qed.

Lemma any_borders_translated (t : idx) (a b : vol bool) (conn : Z) :
  translated t (extract_borders a conn) (extract_borders b conn) ->
  any (extract_borders a conn) = any (extract_borders b conn).
Proof.
  intros Ht.
  destruct (any (extract_borders a conn)) eqn:Ea,
           (any (extract_borders b conn)) eqn:Eb; try reflexivity.
  - apply any_borders_iff in Ea as (q & Hq). rewrite Ht in Hq.
    assert (any (extract_borders b conn) = true)
      by (apply any_borders_iff; eauto). congruence.
  - apply any_borders_iff in Eb as (q & Hq). rewrite <- (unshift q t), <- Ht in Hq.
    assert (any (extract_borders a conn) = true)
      by (apply any_borders_iff; eauto). congruence.
Qed.

Lemma min_dist_translated sp (t q : idx) (a b : vol bool) (conn : Z) :
  translated t (extract_borders a conn) (extract_borders b conn) ->
  any (extract_borders a conn) = true ->
  ndimage.min_dist sp q (argwhere (invert (invert (extract_borders a conn)))) =
  ndimage.min_dist sp (shift q t)
    (argwhere (invert (invert (extract_borders b conn)))).
Proof.
  intros Ht Ha.
  assert (Hb : any (extract_borders b conn) = true)
    by (now rewrite <- (any_borders_translated t a b conn Ht)).
  apply min_dist_ext.
  - apply any_borders_iff in Ha as (f & Hf). apply In_background_borders in Hf.
    intros E. rewrite E in Hf. destruct Hf.
  - apply any_borders_iff in Hb as (f & Hf). apply In_background_borders in Hf.
    intros E. rewrite E in Hf. destruct Hf.
  - intros x. rewrite !in_map_iff. split.
    + intros (f & <- & Hf). exists (shift f t). split; [apply dist_shift | ].
      apply In_background_borders. apply In_background_borders in Hf.
      now rewrite <- Ht.
    + intros (f & <- & Hf).
      exists (let '(i, j, k) := f in
              let '(t0, t1, t2) := t in (i - t0, j - t1, k - t2)).
      split.
      * rewrite <- (unshift f t) at 2. symmetry. apply dist_shift.
      * apply In_background_borders. apply In_background_borders in Hf.
        now rewrite Ht, unshift.
Qed.

(** The distance maps of two translated regions agree cell by cell. *)
Lemma distance_map_translated (t q : idx) (a b : vol bool)
  (sha shb : nat * nat * nat) conn sp :
  has_shape a sha -> has_shape b shb -> translated t a b ->
  inb (shape a) q = true -> inb (shape b) (shift q t) = true ->
  get NaN (distance_map a conn sp) q = get NaN (distance_map b conn sp) (shift q t).
Proof.
  intros Ha Hb Ht Hqa Hqb.
  pose proof (borders_translated t a b sha shb conn Ha Hb Ht) as Hbt.
  rewrite !get_distance_map, Hqa, Hqb.
  rewrite <- (any_borders_translated t a b conn Hbt).
  destruct (any (extract_borders a conn)) eqn:Ea; [ | reflexivity].
  rewrite (min_dist_translated sp t q a b conn Hbt Ea). now rewrite (Ht q).
Qed.

(** ** Sub-multisets *)

Lemma NoDup_incl_submultiset {A} (l k : list A) :
  NoDup l -> incl l k -> submultiset l k.
Proof.
  intros Hl. revert k. induction Hl as [ | x l Hx Hl IH]; intros k Hk.
  - exists k. reflexivity.
  - assert (Hxk : In x k) by (apply Hk; now left).
    apply in_split in Hxk as (k1 & k2 & ->).
    destruct (IH (k1 ++ k2)) as [rest Hrest].
    { intros y Hy. assert (Hy' : In y (k1 ++ x :: k2)) by (apply Hk; now right).
      apply in_app_or in Hy'. apply in_or_app.
      destruct Hy' as [Hy' | [Hy' | Hy']]; auto. subst. contradiction. }
    exists rest. cbn. now apply Permutation_cons_app.
Qed.

Lemma submultiset_map {A B} (f : A -> B) (l k : list A) :
  submultiset l k -> submultiset (map f l) (map f k).
Proof.
  intros [rest H]. exists (map f rest). rewrite <- map_app.
  now apply Permutation_map.
Qed.

(** ** Exclusion can only remove distances *)

Lemma borders_subset (mask : vol bool) (conn : Z) (q : idx) :
  get false (extract_borders mask conn) q = true -> get false mask q = true.
Proof.
  rewrite get_extract_borders. intros H. apply andb_true_iff in H as [_ H].
  destruct (get false mask q) eqn:E; [reflexivity | ].
  cbn in H. apply binary_erosion_subset in H. congruence.
Qed.

Lemma masked_borders_subset (mask : vol bool) (e : option (vol bool)) conn sp thr q :
  get false (masked_borders mask e conn sp thr) q = true ->
  get false (extract_borders mask conn) q = true.
Proof.
  destruct e as [ez | ]; [ | trivial].
  rewrite (masked_borders_rule mask ez conn sp thr q).
  intros H. now apply andb_true_iff in H.
Qed.

(** The distances read on the masked borders of a region are, as a
    multiset, among those read on the unmasked borders of any translate of
    the pair of regions. *)
Lemma distances_submultiset (t : idx) (a b a0 b0 : vol bool)
  (e : option (vol bool)) (sh sh0 : nat * nat * nat) conn sp thr :
  has_shape a sh -> has_shape b sh -> has_shape a0 sh0 -> has_shape b0 sh0 ->
  translated t a a0 -> translated t b b0 ->
  submultiset
    (select NaN (distance_map b conn sp) (masked_borders a e conn sp thr))
    (select NaN (distance_map b0 conn sp) (extract_borders a0 conn)).
Proof.
  intros Ha Hb Ha0 Hb0 Hta Htb. unfold select.
  pose proof (borders_translated t a a0 sh sh0 conn Ha Ha0 Hta) as Hbt.
  assert (Hmoved : forall q, In q (argwhere (masked_borders a e conn sp thr)) ->
                             get false (extract_borders a conn) q = true).
  { intros q Hq. apply In_argwhere in Hq as [_ Hq].
    now apply masked_borders_subset in Hq. }
  rewrite (map_ext_in _ (fun q => get NaN (distance_map b0 conn sp) (shift q t))).
  - rewrite <- (map_map (fun q => shift q t) (get NaN (distance_map b0 conn sp))).
    apply submultiset_map. apply NoDup_incl_submultiset.
    + apply Injective_map_NoDup; [ | apply NoDup_argwhere].
      intros x y. apply shift_inj.
    + intros q' Hq'. apply in_map_iff in Hq' as (q & <- & Hq).
      apply Hmoved in Hq. rewrite Hbt in Hq.
      apply In_argwhere. split; [ | exact Hq].
      rewrite shape_extract_borders. now apply get_borders_inb in Hq.
  - intros q Hq. apply Hmoved in Hq.
    apply (distance_map_translated t q b b0 sh sh0 conn sp Hb Hb0 Htb).
    + rewrite <- (has_shape_shape_eq a b sh Ha Hb).
      apply (get_true_inb_shape a sh q Ha). now apply borders_subset in Hq.
    + rewrite <- (has_shape_shape_eq a0 b0 sh0 Ha0 Hb0).
      apply (get_true_inb_shape a0 sh0 _ Ha0).
      rewrite Hbt in Hq. now apply borders_subset in Hq.
Qed.

(** With and without an exclusion zone the crop stage returns translates
    of one pair of regions. *)
Lemma crop_inputs_views (gt pred ez : vol bool) (crop : bool)
  (sh : nat * nat * nat) (g p : vol bool) (e : option (vol bool)) :
  has_shape gt sh -> has_shape pred sh ->
  crop_inputs gt pred (Some ez) crop = Ok (g, p, e) ->
  (exists q, get false p q = true) ->
  exists g0 p0 t sh1 sh0,
    crop_inputs gt pred None crop = Ok (g0, p0, None) /\
    has_shape g sh1 /\ has_shape p sh1 /\
    has_shape g0 sh0 /\ has_shape p0 sh0 /\
    translated t g g0 /\ translated t p p0.
Proof.
  intros Hg Hp Hc [q Hq]. unfold crop_inputs in *. destruct crop.
  - destruct (compute_bounding_box gt pred ez) as [[bmin bmax] | ] eqn:Ebb;
      [ | discriminate].
    cbn in Hc. inversion Hc; subst g p e. clear Hc.
    pose proof (has_shape_shape_eq gt pred sh Hg Hp) as Hs.
    assert (Hin_gt : forall x, get false gt x = true ->
                               get false (logical_or (logical_or gt pred) ez) x = true
                               /\ get false (logical_or (logical_or gt pred) gt) x = true).
    { intros x Hx. rewrite !get_union, Hx, (get_true_inb_shape gt sh x Hg Hx).
      split; reflexivity. }
    assert (Hin_pred : forall x, get false pred x = true ->
                                 get false (logical_or (logical_or gt pred) ez) x = true
                                 /\ get false (logical_or (logical_or gt pred) gt) x = true).
    { intros x Hx. rewrite !get_union, Hx, Hs, (get_true_inb_shape pred sh x Hp Hx).
      rewrite !orb_true_r. split; reflexivity. }
    assert (Hpred : exists x, get false pred x = true).
    { destruct bmin as [[m0 m1] m2], bmax as [[M0 M1] M2], q as [[i j] k].
      rewrite get_crop in Hq. apply andb_true_iff in Hq as [_ Hq]. eauto. }
    destruct Hpred as [x Hx].
    destruct (bounding_box_exists gt pred gt x (proj2 (Hin_pred x Hx)))
      as (bmin0 & bmax0 & Ebb0).
    rewrite Ebb0. cbn [bind].
    destruct (has_shape_crop gt bmin bmax) as (sh1 & Hsh1 & Hsh1').
    destruct (has_shape_crop gt bmin0 bmax0) as (sh0 & Hsh0 & Hsh0').
    assert (Hv : forall m, (forall y, get false m y = true ->
                                      get false (logical_or (logical_or gt pred) ez) y = true
                                      /\ get false (logical_or (logical_or gt pred) gt) y = true) ->
                           translated bmin (astype_bool (crop_mask m bmin bmax)) m /\
                           translated bmin0 (astype_bool (crop_mask m bmin0 bmax0)) m).
    { intros m Hm. split; apply crop_translated; intros y Hy.
      - apply (bounding_box_contains gt pred ez); [exact Ebb | now apply Hm].
      - apply (bounding_box_contains gt pred gt); [exact Ebb0 | now apply Hm]. }
    destruct (Hv gt Hin_gt) as [Hg1 Hg0]. destruct (Hv pred Hin_pred) as [Hp1 Hp0].
    eexists _, _, _, sh1, sh0. split; [reflexivity | ].
    repeat split; auto.
    + exact (translated_via _ _ _ _ _ Hg1 Hg0).
    + exact (translated_via _ _ _ _ _ Hp1 Hp0).
  - inversion Hc; subst g p e.
    exists gt, pred, (0, 0, 0), sh, sh.
    repeat split; auto using translated_refl.
Qed.

(** C7. Exclusion monotonicity: whenever [compute_distances] returns with
    an exclusion zone supplied, it returns on the same inputs with no
    exclusion zone, and each distance list of the first run is a
    sub-multiset of the corresponding list of the second: the masker
    removes elements and neither adds nor changes any.  This holds for
    every exclusion distance, in particular for those >= 0. *)
Theorem exclusion_monotonicity gt pred ez sp conn crop thr sh r :
  has_shape gt sh -> has_shape pred sh -> has_shape ez sh ->
  compute_distances gt pred (Some ez) sp conn crop thr = Ok r ->
  exists r0,
    compute_distances gt pred None sp conn crop thr = Ok r0 /\
    submultiset (distances_gt_to_pred r) (distances_gt_to_pred r0) /\
    submultiset (distances_pred_to_gt r) (distances_pred_to_gt r0).
Proof.
  intros Hg Hp _ Hr.
  apply compute_distances_Ok in Hr
    as (g & p & e & Hc & Hany & Hgp & Hpg & _).
  assert (Hq : exists q, get false p q = true).
  { apply any_borders_iff in Hany as (q & Hq).
    exists q. now apply borders_subset in Hq. }
  destruct (crop_inputs_views gt pred ez crop sh g p e Hg Hp Hc Hq)
    as (g0 & p0 & t & sh1 & sh0 & Hc0 & Hg1 & Hp1 & Hg0 & Hp0 & Htg & Htp).
  assert (Hany0 : any (extract_borders p0 conn) = true).
  { rewrite <- (any_borders_translated t p p0 conn); [exact Hany | ].
    now apply (borders_translated t p p0 sh1 sh0). }
  destruct (compute_distances_returns gt pred None sp conn crop thr g0 p0 None
              Hc0 Hany0) as [r0 Hr0].
  exists r0. split; [exact Hr0 | ].
  apply compute_distances_Ok in Hr0
    as (g0' & p0' & e0' & Hc0' & _ & Hgp0 & Hpg0 & _).
  rewrite Hc0 in Hc0'. inversion Hc0'; subst g0' p0' e0'.
  rewrite Hgp, Hpg, Hgp0, Hpg0. cbn [masked_borders]. split.
  - now apply (distances_submultiset t g p g0 p0 e sh1 sh0).
  - now apply (distances_submultiset t p g p0 g0 e sh1 sh0).
Qed.

Lemma exclusion_monotonicity_witness :
  exists r,
    compute_distances (line [false; true; true; false]) (line [false; false; true; false])
      (Some (line [true; true; true; false])) (1%R, 1%R, 1%R) 1 true 1%R = Ok r /\
    exists r0,
      compute_distances (line [false; true; true; false])
        (line [false; false; true; false]) None (1%R, 1%R, 1%R) 1 true 1%R = Ok r0 /\
      submultiset (distances_gt_to_pred r) (distances_gt_to_pred r0) /\
      submultiset (distances_pred_to_gt r) (distances_pred_to_gt r0).
Proof.
  eexists. split; [reflexivity | ].
  apply (exclusion_monotonicity (line [false; true; true; false])
           (line [false; false; true; false]) (line [true; true; true; false])
           (1%R, 1%R, 1%R) 1 true 1%R (1, 1, 4)%nat).
  - cbn. repeat constructor.
  - cbn. repeat constructor.
  - cbn. repeat constructor.
  - reflexivity.
Defined.

(** ** The degenerate target *)

(** The half of the sentinel rule that the code keeps: when the borders of
    the target are empty and those of the prediction are not, the call
    returns and the target's map is +infinity at every cell. *)
Lemma degenerate_target_sentinel gt pred ez sp conn crop thr g p e :
  crop_inputs gt pred ez crop = Ok (g, p, e) ->
  any (extract_borders p conn) = true ->
  any (extract_borders g conn) = false ->
  exists r,
    compute_distances gt pred ez sp conn crop thr = Ok r /\
    forall q, inb (shape g) q = true -> get NaN (distmap_gt r) q = PInf.
Proof.
  intros Hc Hp Hg.
  destruct (compute_distances_returns gt pred ez sp conn crop thr g p e Hc Hp)
    as [r Hr].
  exists r. split; [exact Hr | ].
  apply compute_distances_Ok in Hr
    as (g' & p' & e' & Hc' & _ & _ & _ & _ & _ & Hdg & _).
  rewrite Hc in Hc'. inversion Hc'; subst g' p' e'.
  intros q Hq. now rewrite Hdg, get_distance_map, Hq, Hg.
Qed.

(** * Further properties of the code *)

(** ** The bounding box is the smallest box around the union *)

Lemma fold_left_Zmin_In (l : list Z) (a : Z) : In (fold_left Z.min l a) (a :: l).
Proof.
  revert a. induction l as [ | x l IH]; intros a; cbn [fold_left]; [now left | ].
  destruct (IH (Z.min a x)) as [H | H]; [ | right; now right].
  rewrite <- H. destruct (Z.min_spec a x) as [[_ ->] | [_ ->]];
    [now left | right; now left].
Qed.

Lemma fold_left_Zmax_In (l : list Z) (a : Z) : In (fold_left Z.max l a) (a :: l).
Proof.
  revert a. induction l as [ | x l IH]; intros a; cbn [fold_left]; [now left | ].
  destruct (IH (Z.max a x)) as [H | H]; [ | right; now right].
  rewrite <- H. destruct (Z.max_spec a x) as [[_ ->] | [_ ->]];
    [right; now left | now left].
Qed.

Lemma np_min_In (l : list Z) (m : Z) : np.min l = Ok m -> In m l.
Proof.
  destruct l as [ | x xs]; [discriminate | ]. cbn. intros H.
  inversion H; subst. apply fold_left_Zmin_In.
Qed.

Lemma np_max_In (l : list Z) (m : Z) : np.max l = Ok m -> In m l.
Proof.
  destruct l as [ | x xs]; [discriminate | ]. cbn. intros H.
  inversion H; subst. apply fold_left_Zmax_In.
Qed.

Lemma existsb_range (n : nat) (f : Z -> bool) :
  existsb f (range n) = true <-> exists x, 0 <= x < Z.of_nat n /\ f x = true.
Proof.
  rewrite existsb_exists. split; intros (x & H1 & H2); exists x; split; auto;
    now apply In_range.
Qed.

(** An index kept by a projection comes from a set cell. *)
Lemma nonzero_proj_axis0_cell (a : vol bool) (i : Z) :
  In i (nonzero (proj_axis0 a)) ->
  exists j k, inb (shape a) (i, j, k) = true /\ get false a (i, j, k) = true.
Proof.
  rewrite In_nonzero. unfold proj_axis0. destruct (shape a) as [[n0 n1] n2].
  rewrite length_tab, nthZ_tab. intros [Hi H].
  destruct ((0 <=? i) && (i <? Z.of_nat n0)); [ | discriminate].
  apply existsb_range in H as (j & Hj & H). apply existsb_range in H as (k & Hk & H).
  exists j, k. split; [apply inb_true_iff; lia | exact H].
Qed.

Lemma nonzero_proj_axis1_cell (a : vol bool) (j : Z) :
  In j (nonzero (proj_axis1 a)) ->
  exists i k, inb (shape a) (i, j, k) = true /\ get false a (i, j, k) = true.
Proof.
  rewrite In_nonzero. unfold proj_axis1. destruct (shape a) as [[n0 n1] n2].
  rewrite length_tab, nthZ_tab. intros [Hj H].
  destruct ((0 <=? j) && (j <? Z.of_nat n1)); [ | discriminate].
  apply existsb_range in H as (i & Hi & H). apply existsb_range in H as (k & Hk & H).
  exists i, k. split; [apply inb_true_iff; lia | exact H].
Qed.

Lemma nonzero_proj_axis2_cell (a : vol bool) (k : Z) :
  In k (nonzero (proj_axis2 a)) ->
  exists i j, inb (shape a) (i, j, k) = true /\ get false a (i, j, k) = true.
Proof.
  rewrite In_nonzero. unfold proj_axis2. destruct (shape a) as [[n0 n1] n2].
  rewrite length_tab, nthZ_tab. intros [Hk H].
  destruct ((0 <=? k) && (k <? Z.of_nat n2)); [ | discriminate].
  apply existsb_range in H as (i & Hi & H). apply existsb_range in H as (j & Hj & H).
  exists i, j. split; [apply inb_true_iff; lia | exact H].
Qed.

(** The six faces of the returned box each touch a set cell of the union. *)
Lemma bounding_box_faces (a b c : vol bool) (min0 min1 min2 max0 max1 max2 : Z) :
  compute_bounding_box a b c = Ok ((min0, min1, min2), (max0, max1, max2)) ->
  let U := logical_or (logical_or a b) c in
  (exists j k, inb (shape U) (min0, j, k) = true /\ get false U (min0, j, k) = true) /\
  (exists j k, inb (shape U) (max0, j, k) = true /\ get false U (max0, j, k) = true) /\
  (exists i k, inb (shape U) (i, min1, k) = true /\ get false U (i, min1, k) = true) /\
  (exists i k, inb (shape U) (i, max1, k) = true /\ get false U (i, max1, k) = true) /\
  (exists i j, inb (shape U) (i, j, min2) = true /\ get false U (i, j, min2) = true) /\
  (exists i j, inb (shape U) (i, j, max2) = true /\ get false U (i, j, max2) = true).
Proof.
  intros H U. unfold compute_bounding_box in H. fold U in H.
  destruct (np.min (nonzero (proj_axis0 U))) as [x0 | ] eqn:Emin0; [ | discriminate].
  destruct (np.max (nonzero (proj_axis0 U))) as [y0 | ] eqn:Emax0; [ | discriminate].
  destruct (np.min (nonzero (proj_axis1 U))) as [x1 | ] eqn:Emin1; [ | discriminate].
  destruct (np.max (nonzero (proj_axis1 U))) as [y1 | ] eqn:Emax1; [ | discriminate].
  destruct (np.min (nonzero (proj_axis2 U))) as [x2 | ] eqn:Emin2; [ | discriminate].
  destruct (np.max (nonzero (proj_axis2 U))) as [y2 | ] eqn:Emax2; [ | discriminate].
  cbn in H. inversion H; subst.
  apply np_min_In in Emin0, Emin1, Emin2. apply np_max_In in Emax0, Emax1, Emax2.
  repeat split;
    auto using nonzero_proj_axis0_cell, nonzero_proj_axis1_cell, nonzero_proj_axis2_cell.
Qed.

(** X1. The box returned by [compute_bounding_box] lies inside the arrays,
    has [min <= max] on every axis, and holds every set cell of the union
    of the three volumes. *)
Theorem bounding_box_holds_union (a b c : vol bool) (bbox_min bbox_max : idx) :
  compute_bounding_box a b c = Ok (bbox_min, bbox_max) ->
  bbox_within (shape a) bbox_min bbox_max /\
  forall q, get false (logical_or (logical_or a b) c) q = true ->
            in_box bbox_min bbox_max q.
Proof.
  intros H. split.
  - destruct bbox_min as [[min0 min1] min2], bbox_max as [[max0 max1] max2].
    destruct (bounding_box_faces a b c _ _ _ _ _ _ H)
      as ((j0 & k0 & Hi0 & Hg0) & (j0' & k0' & Hi0' & _) &
          (i1 & k1 & Hi1 & Hg1) & (i1' & k1' & Hi1' & _) &
          (i2 & j2 & Hi2 & Hg2) & (i2' & j2' & Hi2' & _)).
    pose proof (bounding_box_contains a b c _ _ _ H Hg0) as B0.
    pose proof (bounding_box_contains a b c _ _ _ H Hg1) as B1.
    pose proof (bounding_box_contains a b c _ _ _ H Hg2) as B2.
    rewrite shape_union in *. destruct (shape a) as [[n0 n1] n2].
    apply inb_true_iff in Hi0, Hi0', Hi1, Hi1', Hi2, Hi2'.
    cbn in B0, B1, B2. cbn. lia.
  - intros q. now apply bounding_box_contains.
Qed.

Lemma bounding_box_holds_union_witness :
  bbox_within (shape (line [false; true; false; false])) (0, 0, 1) (0, 0, 2) /\
  forall q,
    get false (logical_or (logical_or (line [false; true; false; false])
                             (line [false; false; true; false]))
                 (line [false; true; true; false])) q = true ->
    in_box (0, 0, 1) (0, 0, 2) q.
Proof.
  apply (bounding_box_holds_union (line [false; true; false; false])
           (line [false; false; true; false]) (line [false; true; true; false])).
  reflexivity.
Defined.

(** X2. The returned box is the smallest one: every box that holds all
    set cells of the union holds both corners of the returned box. *)
Theorem bounding_box_minimal (a b c : vol bool) (bbox_min bbox_max lo hi : idx) :
  compute_bounding_box a b c = Ok (bbox_min, bbox_max) ->
  (forall q, get false (logical_or (logical_or a b) c) q = true -> in_box lo hi q) ->
  in_box lo hi bbox_min /\ in_box lo hi bbox_max.
Proof.
  destruct bbox_min as [[min0 min1] min2], bbox_max as [[max0 max1] max2].
  destruct lo as [[l0 l1] l2], hi as [[h0 h1] h2].
  intros H Hbox.
  destruct (bounding_box_faces a b c _ _ _ _ _ _ H)
    as ((? & ? & _ & G0) & (? & ? & _ & G0') & (? & ? & _ & G1) &
        (? & ? & _ & G1') & (? & ? & _ & G2) & (? & ? & _ & G2')).
  apply Hbox in G0, G0', G1, G1', G2, G2'. cbn in *. lia.
Qed.

Lemma bounding_box_minimal_witness :
  in_box (0, 0, 0) (0, 0, 3) (0, 0, 1) /\ in_box (0, 0, 0) (0, 0, 3) (0, 0, 2).
Proof.
  apply (bounding_box_minimal (line [false; true; false; false])
           (line [false; false; true; false]) (line [false; true; true; false])
           (0, 0, 1) (0, 0, 2) (0, 0, 0) (0, 0, 3)).
  - reflexivity.
  - intros [[i j] k] Hq.
    assert (Hin : inb (1, 1, 4)%nat (i, j, k) = true).
    { rewrite get_union in Hq. now apply andb_true_iff in Hq. }
    apply inb_true_iff in Hin. cbn. lia.
Defined.

(** X3. [compute_bounding_box] returns a box whenever the union of the
    three volumes has a set cell: the ValueError of the empty union is its
    only failure. *)
Theorem bounding_box_returns (a b c : vol bool) :
  any (logical_or (logical_or a b) c) = true ->
  exists bbox_min bbox_max, compute_bounding_box a b c = Ok (bbox_min, bbox_max).
Proof.
  intros H. apply any_true_iff in H as (q & _ & Hq).
  now apply (bounding_box_exists a b c q).
Qed.

Lemma bounding_box_returns_witness :
  exists bbox_min bbox_max,
    compute_bounding_box (line [false; true]) (line [false; false]) (line [false; false])
    = Ok (bbox_min, bbox_max).
Proof.
  apply (bounding_box_returns (line [false; true]) (line [false; false])
           (line [false; false])).
  reflexivity.
Defined.

(** ** A region has borders as soon as it has a cell *)

(** The neighbour below along axis 0 belongs to every structuring element. *)
Lemma erosion_needs_lower_neighbour (mask : vol bool) (conn : Z) (i j k : Z) :
  get false mask (i - 1, j, k) = false ->
  forallb (fun '(a, b, c) =>
             implb (get false (ndimage.generate_binary_structure conn) (a, b, c))
                   (get false mask (i + a - 1, j + b - 1, k + c - 1)))
          (indices (3, 3, 3)%nat) = false.
Proof.
  intros H. apply not_true_is_false. intros E.
  rewrite forallb_forall in E.
  assert (Hin : In (0, 1, 1) (indices (3, 3, 3)%nat))
    by (apply In_indices; reflexivity).
  specialize (E (0, 1, 1) Hin). cbv beta iota in E.
  rewrite get_generate_binary_structure in E.
  replace (i + 0 - 1) with (i - 1) in E by lia.
  replace (j + 1 - 1) with j in E by lia.
  replace (k + 1 - 1) with k in E by lia.
  rewrite H in E.
  assert (Hc : (Z.abs (0 - 1) + Z.abs (1 - 1) + Z.abs (1 - 1)
                <=? (if conn <? 1 then 1 else conn)) = true).
  { apply Z.leb_le. destruct (Z.ltb_spec conn 1); cbn; lia. }
  rewrite Hc in E. discriminate E.
Qed.

Lemma borders_nonempty (mask : vol bool) (sh : nat * nat * nat) (conn : Z) (q : idx) :
  has_shape mask sh -> get false mask q = true ->
  exists q', get false (extract_borders mask conn) q' = true.
Proof.
  intros Hs. destruct q as [[i j] k].
  remember (Z.to_nat i) as n eqn:En. revert i En.
  induction n as [ | n IH]; intros i En Hq.
  - exists (i, j, k). rewrite (get_extract_borders_rect mask sh conn i j k Hs), Hq.
    rewrite erosion_needs_lower_neighbour; [reflexivity | ].
    destruct (get false mask (i - 1, j, k)) eqn:E; [ | reflexivity].
    apply (get_true_inb mask sh _ Hs) in E, Hq.
    destruct sh as [[n0 n1] n2]. apply inb_true_iff in E, Hq. lia.
  - destruct (get false mask (i - 1, j, k)) eqn:E.
    + apply (IH (i - 1)); [lia | exact E].
    + exists (i, j, k). rewrite (get_extract_borders_rect mask sh conn i j k Hs), Hq.
      now rewrite erosion_needs_lower_neighbour.
Qed.

Lemma borders_empty_iff_region_empty_aux (mask : vol bool) (sh : nat * nat * nat)
  (conn : Z) :
  has_shape mask sh ->
  any (extract_borders mask conn) = any mask.
Proof.
  intros Hs.
  destruct (any (extract_borders mask conn)) eqn:Eb, (any mask) eqn:Em;
    try reflexivity.
  - apply any_borders_iff in Eb as (q & Hq). apply borders_subset in Hq.
    assert (any mask = true).
    { apply any_true_iff. exists q. split; [ | exact Hq].
      now apply (get_true_inb_shape mask sh). }
    congruence.
  - apply any_true_iff in Em as (q & _ & Hq).
    destruct (borders_nonempty mask sh conn q Hs Hq) as [q' Hq'].
    assert (any (extract_borders mask conn) = true)
      by (apply any_borders_iff; eauto).
    congruence.
Qed.

(** X4. The borders of a region are empty exactly when the region is: the
    erosion counts cells beyond the array as unset, so a region that fills
    its array still has its outer layer as borders. *)
Theorem borders_empty_iff_region_empty (mask : vol bool) (sh : nat * nat * nat)
  (conn : Z) :
  has_shape mask sh ->
  any (extract_borders mask conn) = any mask.
Proof. apply borders_empty_iff_region_empty_aux. Qed.

Lemma borders_empty_iff_region_empty_witness :
  any (extract_borders [[[true; true]; [true; true]]] 3)
  = any [[[true; true]; [true; true]]].
Proof.
  apply (borders_empty_iff_region_empty _ (1, 2, 2)%nat).
  cbn. repeat constructor.
Defined.

(** ** When [compute_distances] returns *)

Lemma any_iff_cell (mask : vol bool) (sh : nat * nat * nat) :
  has_shape mask sh ->
  (any mask = true <-> exists q, get false mask q = true).
Proof.
  intros Hs. rewrite any_true_iff. split.
  - intros (q & _ & H). eauto.
  - intros (q & H). exists q. split; [ | exact H].
    now apply (get_true_inb_shape mask sh).
Qed.

Lemma get_union_of (gt pred : vol bool) (ez : option (vol bool)) (q : idx) :
  get false (union_of gt pred ez) q =
  inb (shape gt) q &&
  (get false gt q || get false pred q ||
   get false (match ez with Some z => z | None => gt end) q).
Proof. unfold union_of. apply get_union. Qed.

(** The regions are inside the union. *)
Lemma union_of_holds (gt pred : vol bool) (ez : option (vol bool))
  (sh : nat * nat * nat) (q : idx) :
  same_shape gt pred ez sh ->
  (get false gt q = true \/ get false pred q = true \/
   exists z, ez = Some z /\ get false z q = true) ->
  get false (union_of gt pred ez) q = true.
Proof.
  intros (Hg & Hp & He) H. rewrite get_union_of.
  assert (Hin : inb (shape gt) q = true).
  { destruct H as [H | [H | (z & -> & H)]].
    - now apply (get_true_inb_shape gt sh).
    - rewrite (has_shape_shape_eq gt pred sh Hg Hp).
      now apply (get_true_inb_shape pred sh).
    - rewrite (has_shape_shape_eq gt z sh Hg He).
      now apply (get_true_inb_shape z sh). }
  rewrite Hin. destruct H as [H | [H | (z & -> & H)]]; rewrite H;
    now rewrite ?orb_true_r.
Qed.

Lemma crop_inputs_true_unfold (gt pred : vol bool) (ez : option (vol bool)) :
  crop_inputs gt pred ez true =
  '(bbox_min, bbox_max) <-
     compute_bounding_box gt pred (match ez with Some z => z | None => gt end) ;;
  Ok (astype_bool (crop_mask gt bbox_min bbox_max),
      astype_bool (crop_mask pred bbox_min bbox_max),
      option_map (fun z => astype_bool (crop_mask z bbox_min bbox_max)) ez).
Proof.
  unfold crop_inputs. destruct ez as [z | ];
    now destruct (compute_bounding_box _ _ _) as [[bmin bmax] | ].
Qed.

(** The crop stage with cropping on: each returned region is the input
    region seen from the lower corner of the bounding box. *)
Lemma crop_inputs_true_views (gt pred : vol bool) (ez : option (vol bool))
  (sh : nat * nat * nat) (g p : vol bool) (e : option (vol bool)) :
  same_shape gt pred ez sh ->
  crop_inputs gt pred ez true = Ok (g, p, e) ->
  exists t sh1,
    has_shape g sh1 /\ has_shape p sh1 /\
    translated t g gt /\ translated t p pred /\
    translated_opt t e ez sh1 sh.
Proof.
  intros Hsame Hc. rewrite crop_inputs_true_unfold in Hc.
  destruct (compute_bounding_box gt pred _) as [[bmin bmax] | ] eqn:Ebb;
    [ | discriminate].
  cbn in Hc. inversion Hc; subst g p e. clear Hc.
  destruct (has_shape_crop gt bmin bmax) as (sh1 & Hsh1 & Hsh1').
  assert (Hv : forall m, (forall y, get false m y = true ->
                                    get false (union_of gt pred ez) y = true) ->
                         translated bmin (astype_bool (crop_mask m bmin bmax)) m).
  { intros m Hm. apply crop_translated. intros y Hy.
    apply (bounding_box_contains gt pred _ _ _ _ Ebb). now apply Hm. }
  exists bmin, sh1. repeat split; auto.
  - apply Hv. intros y Hy. apply (union_of_holds gt pred ez sh); auto.
  - apply Hv. intros y Hy. apply (union_of_holds gt pred ez sh); auto.
  - destruct ez as [z | ]; cbn; [ | exact I].
    repeat split; auto; [ | apply Hsame].
    apply Hv. intros y Hy. apply (union_of_holds gt pred (Some z) sh); eauto.
Qed.

Lemma crop_inputs_true_returns (gt pred : vol bool) (ez : option (vol bool))
  (sh : nat * nat * nat) (q : idx) :
  same_shape gt pred ez sh -> get false pred q = true ->
  exists g p e, crop_inputs gt pred ez true = Ok (g, p, e).
Proof.
  intros Hsame Hq. rewrite crop_inputs_true_unfold.
  destruct (bounding_box_exists gt pred (match ez with Some z => z | None => gt end) q)
    as (bmin & bmax & ->).
  - apply (union_of_holds gt pred ez sh); auto.
  - cbn. eauto.
Qed.

Lemma translated_cell (t : idx) (a b : vol bool) :
  translated t a b ->
  ((exists q, get false a q = true) <-> (exists q, get false b q = true)).
Proof.
  intros Ht. split; intros [q Hq].
  - exists (shift q t). now rewrite <- Ht.
  - rewrite <- (unshift q t), <- Ht in Hq. eauto.
Qed.

(** The predicted region that reaches the surface extractor has a cell
    exactly when the input one has. *)
Lemma crop_inputs_pred_cell (gt pred : vol bool) (ez : option (vol bool)) (crop : bool)
  (sh : nat * nat * nat) (g p : vol bool) (e : option (vol bool)) :
  same_shape gt pred ez sh ->
  crop_inputs gt pred ez crop = Ok (g, p, e) ->
  exists sh1, has_shape p sh1 /\
    ((exists q, get false p q = true) <-> (exists q, get false pred q = true)).
Proof.
  intros Hsame Hc. destruct crop.
  - destruct (crop_inputs_true_views gt pred ez sh g p e Hsame Hc)
      as (t & sh1 & _ & Hp & _ & Htp & _).
    exists sh1. split; [exact Hp | now apply (translated_cell t)].
  - cbn in Hc. inversion Hc; subst. exists sh. split; [apply Hsame | tauto].
Qed.

(** X5. On volumes of one shape [compute_distances] returns exactly when
    the predicted region has a set voxel, whatever the target, the
    exclusion zone and the crop flag are. *)
Theorem compute_distances_returns_iff gt pred ez sp conn crop thr sh :
  same_shape gt pred ez sh ->
  ((exists r, compute_distances gt pred ez sp conn crop thr = Ok r) <->
   any pred = true).
Proof.
  intros Hsame. rewrite (any_iff_cell pred sh) by apply Hsame. split.
  - intros [r Hr].
    apply compute_distances_Ok in Hr as (g & p & e & Hc & Hany & _).
    destruct (crop_inputs_pred_cell gt pred ez crop sh g p e Hsame Hc)
      as (sh1 & Hp & Hiff).
    apply Hiff. apply any_borders_iff in Hany as (q & Hq).
    exists q. now apply borders_subset in Hq.
  - intros [q Hq].
    assert (Hc : exists g p e, crop_inputs gt pred ez crop = Ok (g, p, e)).
    { destruct crop; [now apply (crop_inputs_true_returns gt pred ez sh q) | ].
      cbn. eauto. }
    destruct Hc as (g & p & e & Hc).
    destruct (crop_inputs_pred_cell gt pred ez crop sh g p e Hsame Hc)
      as (sh1 & Hp & Hiff).
    destruct (proj2 Hiff (ex_intro _ q Hq)) as [q' Hq'].
    destruct (borders_nonempty p sh1 conn q' Hp Hq') as [q'' Hq''].
    apply (compute_distances_returns gt pred ez sp conn crop thr g p e Hc).
    apply any_borders_iff. eauto.
Qed.

Lemma compute_distances_returns_iff_witness :
  (exists r, compute_distances (line [false; false]) (line [false; true]) None
               (1%R, 1%R, 1%R) 1 true 5%R = Ok r) <->
  any (line [false; true]) = true.
Proof.
  apply (compute_distances_returns_iff _ _ _ _ _ _ _ (1, 1, 2)%nat).
  cbn. repeat constructor.
Defined.

(** X6. With an empty predicted region the call raises: ValueError when
    cropping is on and the union taken by the bounding box is empty too,
    UnboundLocalError in every other case. *)
Theorem compute_distances_empty_pred_error gt pred ez sp conn crop thr sh :
  same_shape gt pred ez sh ->
  any pred = false ->
  compute_distances gt pred ez sp conn crop thr =
  Err (if crop && negb (any (union_of gt pred ez))
       then ValueError else UnboundLocalError).
Proof.
  intros Hsame Hpred.
  assert (Hno : forall g p e, crop_inputs gt pred ez crop = Ok (g, p, e) ->
                              any (extract_borders p conn) = false).
  { intros g p e Hc.
    destruct (crop_inputs_pred_cell gt pred ez crop sh g p e Hsame Hc)
      as (sh1 & Hp & Hiff).
    destruct (any (extract_borders p conn)) eqn:E; [ | reflexivity].
    apply any_borders_iff in E as (q & Hq). apply borders_subset in Hq.
    destruct (proj1 Hiff (ex_intro _ q Hq)) as [q' Hq'].
    assert (any pred = true) by (apply (any_iff_cell pred sh); [apply Hsame | eauto]).
    congruence. }
  destruct (crop_inputs gt pred ez crop) as [[[g p] e] | x] eqn:Hc.
  - rewrite (compute_distances_empty_pred gt pred ez sp conn crop thr g p e Hc)
      by (now apply (Hno g p e)).
    destruct crop; [ | reflexivity].
    destruct (any (union_of gt pred ez)) eqn:EU; [reflexivity | ].
    rewrite crop_inputs_true_unfold in Hc. unfold compute_bounding_box in Hc.
    unfold union_of in EU. rewrite (nonzero_proj_axis0_empty _ EU) in Hc.
    discriminate Hc.
  - unfold compute_distances. rewrite Hc. cbn [bind].
    destruct crop; [ | discriminate Hc].
    destruct (any (union_of gt pred ez)) eqn:EU.
    + apply any_true_iff in EU as (q & _ & Hq). unfold union_of in Hq.
      destruct (bounding_box_exists _ _ _ q Hq) as (bmin & bmax & Ebb).
      rewrite crop_inputs_true_unfold, Ebb in Hc. discriminate Hc.
    + rewrite crop_inputs_true_unfold in Hc. unfold compute_bounding_box in Hc.
      unfold union_of in EU. rewrite (nonzero_proj_axis0_empty _ EU) in Hc.
      cbn in Hc. inversion Hc. reflexivity.
Qed.

Lemma compute_distances_empty_pred_error_witness :
  compute_distances (line [false; false]) (line [false; false])
    (Some (line [false; true])) (1%R, 1%R, 1%R) 1 true 5%R =
  Err (if true && negb (any (union_of (line [false; false]) (line [false; false])
                               (Some (line [false; true]))))
       then ValueError else UnboundLocalError).
Proof.
  apply (compute_distances_empty_pred_error _ _ _ _ _ _ _ (1, 1, 2)%nat).
  - cbn. repeat constructor.
  - reflexivity.
Defined.

(** ** Cropping loses nothing *)

(** X7. Cropping with the computed bounding box keeps every voxel of every
    input region: each cropped volume, read at [q], is the input volume
    read at [q + bbox_min], for every [q]. *)
Theorem crop_keeps_regions (gt pred : vol bool) (ez : option (vol bool))
  (sh : nat * nat * nat) (bbox_min bbox_max : idx) :
  same_shape gt pred ez sh ->
  compute_bounding_box gt pred (match ez with Some z => z | None => gt end)
  = Ok (bbox_min, bbox_max) ->
  translated bbox_min (astype_bool (crop_mask gt bbox_min bbox_max)) gt /\
  translated bbox_min (astype_bool (crop_mask pred bbox_min bbox_max)) pred /\
  forall z, ez = Some z ->
            translated bbox_min (astype_bool (crop_mask z bbox_min bbox_max)) z.
Proof.
  intros Hsame Ebb.
  assert (Hv : forall m, (forall y, get false m y = true ->
                                    get false (union_of gt pred ez) y = true) ->
                         translated bbox_min
                           (astype_bool (crop_mask m bbox_min bbox_max)) m).
  { intros m Hm. apply crop_translated. intros y Hy.
    apply (bounding_box_contains gt pred _ _ _ _ Ebb). now apply Hm. }
  repeat split.
  - apply Hv. intros y Hy. apply (union_of_holds gt pred ez sh); auto.
  - apply Hv. intros y Hy. apply (union_of_holds gt pred ez sh); auto.
  - intros z ->. apply Hv. intros y Hy.
    apply (union_of_holds gt pred (Some z) sh); eauto.
Qed.

Lemma crop_keeps_regions_witness :
  translated (0, 0, 1)
    (astype_bool (crop_mask (line [false; true; false; false]) (0, 0, 1) (0, 0, 2)))
    (line [false; true; false; false]) /\
  translated (0, 0, 1)
    (astype_bool (crop_mask (line [false; false; true; false]) (0, 0, 1) (0, 0, 2)))
    (line [false; false; true; false]) /\
  forall z, None = Some z ->
            translated (0, 0, 1) (astype_bool (crop_mask z (0, 0, 1) (0, 0, 2))) z.
Proof.
  apply (crop_keeps_regions (line [false; true; false; false])
           (line [false; false; true; false]) None (1, 1, 4)%nat).
  - cbn. repeat constructor.
  - reflexivity.
Defined.

(** ** The crop flag does not change the distances *)

Lemma translated_sym (t : idx) (a b : vol bool) :
  translated t a b ->
  translated (let '(t0, t1, t2) := t in (- t0, - t1, - t2)) b a.
Proof.
  destruct t as [[t0 t1] t2]. intros H [[i j] k].
  rewrite (H (shift (i, j, k) (- t0, - t1, - t2))). cbn [shift]. idx_eq.
Qed.

Lemma exclusion_map_translated (t q : idx) (z z0 : vol bool)
  (sh sh0 : nat * nat * nat) conn sp :
  has_shape z sh -> has_shape z0 sh0 -> translated t z z0 ->
  any (extract_borders z0 conn) = true ->
  inb (shape z) q = true -> inb (shape z0) (shift q t) = true ->
  get NaN (exclusion_map z conn sp) q
  = get NaN (exclusion_map z0 conn sp) (shift q t).
Proof.
  intros Hz Hz0 Ht Hany Hq Hq0.
  pose proof (borders_translated t z z0 sh sh0 conn Hz Hz0 Ht) as Hbt.
  rewrite <- (any_borders_translated t z z0 conn Hbt) in Hany.
  unfold exclusion_map. rewrite !get_signed_distmap, !shape_extract_borders, Hq, Hq0.
  rewrite (min_dist_translated sp t q z z0 conn Hbt Hany). now rewrite (Ht q).
Qed.

(** The masked borders of translated regions under translated exclusion
    zones are translates of each other. *)
Lemma masked_borders_translated (t : idx) (a a0 : vol bool)
  (e e0 : option (vol bool)) (sh sh0 : nat * nat * nat) conn sp thr :
  has_shape a sh -> has_shape a0 sh0 -> translated t a a0 ->
  translated_opt t e e0 sh sh0 ->
  (forall z0, e0 = Some z0 -> any (extract_borders z0 conn) = true) ->
  translated t (masked_borders a e conn sp thr) (masked_borders a0 e0 conn sp thr).
Proof.
  intros Ha Ha0 Ht He Hdeg q.
  pose proof (borders_translated t a a0 sh sh0 conn Ha Ha0 Ht) as Hbt.
  destruct e as [z | ], e0 as [z0 | ]; cbn in He; try contradiction;
    [ | apply Hbt].
  destruct He as (Htz & Hz & Hz0).
  rewrite (masked_borders_rule a z conn sp thr q).
  rewrite (masked_borders_rule a0 z0 conn sp thr (shift q t)).
  rewrite <- (Hbt q).
  destruct (get false (extract_borders a conn) q) eqn:E; [ | reflexivity].
  cbn [andb]. f_equal. f_equal.
  apply (exclusion_map_translated t q z z0 sh sh0 conn sp Hz Hz0 Htz); auto.
  - rewrite <- (has_shape_shape_eq a z sh Ha Hz).
    apply (get_true_inb_shape a sh q Ha). now apply borders_subset in E.
  - rewrite <- (has_shape_shape_eq a0 z0 sh0 Ha0 Hz0).
    apply (get_true_inb_shape a0 sh0 _ Ha0).
    rewrite Hbt in E. now apply borders_subset in E.
Qed.

Lemma In_argwhere_masked (a : vol bool) (e : option (vol bool)) conn sp thr q :
  In q (argwhere (masked_borders a e conn sp thr)) <->
  get false (masked_borders a e conn sp thr) q = true.
Proof.
  rewrite In_argwhere. split; [tauto | ]. intros H. split; [ | exact H].
  assert (Hs : shape (masked_borders a e conn sp thr) = shape a).
  { unfold masked_borders. destruct e; [rewrite shape_clear_where | ];
      apply shape_extract_borders. }
  rewrite Hs. apply masked_borders_subset in H. now apply get_borders_inb in H.
Qed.

(** The distances read on the masked borders of translated configurations
    are the same up to order. *)
Lemma distances_permutation (t : idx) (a b a0 b0 : vol bool)
  (e e0 : option (vol bool)) (sh sh0 : nat * nat * nat) conn sp thr :
  has_shape a sh -> has_shape b sh -> has_shape a0 sh0 -> has_shape b0 sh0 ->
  translated t a a0 -> translated t b b0 ->
  translated_opt t e e0 sh sh0 ->
  (forall z0, e0 = Some z0 -> any (extract_borders z0 conn) = true) ->
  Permutation
    (select NaN (distance_map b conn sp) (masked_borders a e conn sp thr))
    (select NaN (distance_map b0 conn sp) (masked_borders a0 e0 conn sp thr)).
Proof.
  intros Ha Hb Ha0 Hb0 Hta Htb He Hdeg. unfold select.
  pose proof (masked_borders_translated t a a0 e e0 sh sh0 conn sp thr
                Ha Ha0 Hta He Hdeg) as Hmt.
  rewrite (map_ext_in _ (fun q => get NaN (distance_map b0 conn sp) (shift q t))).
  - rewrite <- (map_map (fun q => shift q t) (get NaN (distance_map b0 conn sp))).
    apply Permutation_map. apply NoDup_Permutation.
    + apply Injective_map_NoDup; [ | apply NoDup_argwhere].
      intros x y. apply shift_inj.
    + apply NoDup_argwhere.
    + intros x. rewrite in_map_iff. split.
      * intros (q & <- & Hq). apply In_argwhere_masked.
        apply In_argwhere_masked in Hq. now rewrite <- Hmt.
      * intros Hx. apply In_argwhere_masked in Hx.
        exists (let '(i, j, k) := x in
                let '(t0, t1, t2) := t in (i - t0, j - t1, k - t2)).
        split; [apply unshift | ].
        apply In_argwhere_masked. now rewrite Hmt, unshift.
  - intros q Hq. apply In_argwhere_masked in Hq.
    pose proof Hq as Hq0. rewrite Hmt in Hq0.
    apply masked_borders_subset, borders_subset in Hq, Hq0.
    apply (distance_map_translated t q b b0 sh sh0 conn sp Hb Hb0 Htb).
    + rewrite <- (has_shape_shape_eq a b sh Ha Hb).
      now apply (get_true_inb_shape a sh q Ha).
    + rewrite <- (has_shape_shape_eq a0 b0 sh0 Ha0 Hb0).
      now apply (get_true_inb_shape a0 sh0 _ Ha0).
Qed.

(** X8. The crop flag is an optimisation only: on volumes of one shape,
    with no exclusion zone or a non-empty one, a run without cropping that
    returns is matched by a run with cropping that returns the same two
    distance lists up to the order of their elements. *)
Theorem crop_invariance gt pred ez sp conn thr sh r :
  same_shape gt pred ez sh ->
  (forall z, ez = Some z -> any z = true) ->
  compute_distances gt pred ez sp conn false thr = Ok r ->
  exists r',
    compute_distances gt pred ez sp conn true thr = Ok r' /\
    Permutation (distances_gt_to_pred r') (distances_gt_to_pred r) /\
    Permutation (distances_pred_to_gt r') (distances_pred_to_gt r).
Proof.
  intros Hsame Hez Hr.
  apply compute_distances_Ok in Hr
    as (g0 & p0 & e0 & Hc0 & Hany0 & Hgp0 & Hpg0 & _).
  cbn in Hc0. inversion Hc0; subst g0 p0 e0. clear Hc0.
  assert (Hq : exists q, get false pred q = true).
  { apply any_borders_iff in Hany0 as (q & Hq).
    exists q. now apply borders_subset in Hq. }
  destruct Hq as [q Hq].
  destruct (crop_inputs_true_returns gt pred ez sh q Hsame Hq)
    as (g & p & e & Hc).
  destruct (crop_inputs_true_views gt pred ez sh g p e Hsame Hc)
    as (t & sh1 & Hg & Hp & Htg & Htp & Hte).
  destruct Hsame as (Hgt & Hpred & Hzone).
  assert (Hany : any (extract_borders p conn) = true).
  { rewrite (any_borders_translated t p pred conn); [exact Hany0 | ].
    now apply (borders_translated t p pred sh1 sh). }
  destruct (compute_distances_returns gt pred ez sp conn true thr g p e Hc Hany)
    as [r' Hr'].
  exists r'. split; [exact Hr' | ].
  apply compute_distances_Ok in Hr'
    as (g' & p' & e' & Hc' & _ & Hgp & Hpg & _).
  rewrite Hc in Hc'. inversion Hc'; subst g' p' e'.
  assert (Hdeg : forall z0, ez = Some z0 -> any (extract_borders z0 conn) = true).
  { intros z0 ->. rewrite (borders_empty_iff_region_empty_aux z0 sh conn Hzone).
    now apply Hez. }
  rewrite Hgp, Hpg, Hgp0, Hpg0. split.
  - now apply (distances_permutation t g p gt pred e ez sh1 sh).
  - now apply (distances_permutation t p g pred gt e ez sh1 sh).
Qed.

Lemma crop_invariance_witness :
  exists r,
    compute_distances (line [false; true; true; false]) (line [false; false; true; false])
      (Some (line [true; true; true; false])) (1%R, 1%R, 1%R) 1 false 1%R = Ok r /\
    exists r',
      compute_distances (line [false; true; true; false])
        (line [false; false; true; false])
        (Some (line [true; true; true; false])) (1%R, 1%R, 1%R) 1 true 1%R = Ok r' /\
      Permutation (distances_gt_to_pred r') (distances_gt_to_pred r) /\
      Permutation (distances_pred_to_gt r') (distances_pred_to_gt r).
Proof.
  eexists. split; [reflexivity | ].
  apply (crop_invariance (line [false; true; true; false])
           (line [false; false; true; false])
           (Some (line [true; true; true; false]))
           (1%R, 1%R, 1%R) 1 1%R (1, 1, 4)%nat).
  - cbn. repeat constructor.
  - intros z H. inversion H. reflexivity.
  - reflexivity.
Defined.

(** ** What the distance lists hold *)

Lemma crop_inputs_shapes (gt pred : vol bool) (ez : option (vol bool)) (crop : bool)
  (sh : nat * nat * nat) (g p : vol bool) (e : option (vol bool)) :
  has_shape gt sh -> has_shape pred sh ->
  crop_inputs gt pred ez crop = Ok (g, p, e) ->
  exists sh1, has_shape g sh1 /\ has_shape p sh1.
Proof.
  intros Hg Hp Hc. destruct crop.
  - rewrite crop_inputs_true_unfold in Hc.
    destruct (compute_bounding_box gt pred _) as [[bmin bmax] | ]; [ | discriminate].
    cbn in Hc. inversion Hc; subst.
    destruct (has_shape_crop gt bmin bmax) as (sh1 & H1 & H2). eauto.
  - cbn in Hc. inversion Hc; subst. eauto.
Qed.

(** On the masked borders of [a] the distance map of [b] holds no
    not-a-number as soon as [b] has borders. *)
Lemma distances_not_nan (a b : vol bool) (e : option (vol bool))
  (sh : nat * nat * nat) conn sp thr (d : float) :
  has_shape a sh -> has_shape b sh ->
  any (extract_borders b conn) = true ->
  In d (select NaN (distance_map b conn sp) (masked_borders a e conn sp thr)) ->
  d <> NaN.
Proof.
  intros Ha Hb Hany Hd. unfold select in Hd.
  apply in_map_iff in Hd as (q & <- & Hq).
  apply In_argwhere_masked, masked_borders_subset, borders_subset in Hq.
  rewrite get_distance_map, Hany.
  rewrite <- (has_shape_shape_eq a b sh Ha Hb).
  rewrite (get_true_inb_shape a sh q Ha Hq). discriminate.
Qed.

(** X9. No value of [distances_gt_to_pred] is not-a-number: the list is
    read inside the array of a map that was computed from non-empty
    borders, so the summarizer's comparisons see every one of its
    elements. *)
Theorem distances_gt_to_pred_not_nan gt pred ez sp conn crop thr sh r :
  has_shape gt sh -> has_shape pred sh ->
  compute_distances gt pred ez sp conn crop thr = Ok r ->
  forall d, In d (distances_gt_to_pred r) -> d <> NaN.
Proof.
  intros Hg Hp Hr d Hd.
  apply compute_distances_Ok in Hr as (g & p & e & Hc & Hany & Hgp & _).
  destruct (crop_inputs_shapes gt pred ez crop sh g p e Hg Hp Hc)
    as (sh1 & Hg1 & Hp1).
  rewrite Hgp in Hd.
  now apply (distances_not_nan g p e sh1 conn sp thr d).
Qed.

Lemma distances_gt_to_pred_not_nan_witness :
  exists r,
    compute_distances (line [true; true; false]) (line [false; true; true]) None
      (1%R, 1%R, 1%R) 1 true 5%R = Ok r /\
    forall d, In d (distances_gt_to_pred r) -> d <> NaN.
Proof.
  eexists. split; [reflexivity | ].
  apply (distances_gt_to_pred_not_nan (line [true; true; false])
           (line [false; true; true]) None (1%R, 1%R, 1%R) 1 true 5%R (1, 1, 3)%nat).
  - cbn. repeat constructor.
  - cbn. repeat constructor.
  - reflexivity.
Defined.

(** The two upper coverage fractions of a list without not-a-number. *)
Lemma fractions_sum (l : list float) :
  l <> [] -> (forall d, In d l -> d <> NaN) ->
  (INR (count (fun d => flt d 5) l) / INR (length l)
   + INR (count (fun d => fge d 5) l) / INR (length l) = 1)%R.
Proof.
  intros Hne Hnan.
  assert (Hn : (0 < INR (length l))%R).
  { apply lt_0_INR. destruct l; [congruence | cbn; lia]. }
  rewrite <- Rdiv_plus_distr, <- plus_INR.
  rewrite (count_complement (fun d => flt d 5) (fun d => fge d 5)).
  - field. lra.
  - intros x Hx. apply flt_negb_fge. auto.
Qed.

(** X10. The two stages compose: when [compute_distances] returns a
    non-empty [distances_gt_to_pred], the summarizer returns on that
    dictionary, counts every border voxel, and its fractions below and
    from 5 mm sum to 1. *)
Theorem pipeline_fractions
  (patient_id lesion_id : Type) (nanquantile : list float -> R -> float)
  (nanmedian : list float -> float) (patient : patient_id) (lesion : lesion_id)
  gt pred ez sp conn crop thr sh r :
  has_shape gt sh -> has_shape pred sh ->
  compute_distances gt pred ez sp conn crop thr = Ok r ->
  distances_gt_to_pred r <> [] ->
  exists s,
    summarize_surface_dists patient_id lesion_id nanquantile nanmedian
      patient lesion r = Ok s /\
    nr_voxels _ _ s = length (argwhere (borders_gt r)) /\
    (x_equal_greater_than_0m _ _ s + x_equal_greater_than_5m _ _ s = 1)%R.
Proof.
  intros Hg Hp Hr Hne.
  assert (Hfin : forall d, In d (distances_gt_to_pred r) -> d <> NaN).
  { intros d Hd. apply compute_distances_Ok in Hr as (g & p & e & Hc & Hany & Hgp & _).
    destruct (crop_inputs_shapes gt pred ez crop sh g p e Hg Hp Hc)
      as (sh1 & Hg1 & Hp1).
    rewrite Hgp in Hd.
    exact (distances_not_nan g p e sh1 conn sp thr d Hg1 Hp1 Hany Hd). }
  assert (Hlen : length (distances_gt_to_pred r) = length (argwhere (borders_gt r))).
  { apply compute_distances_Ok in Hr
      as (g & p & e & _ & _ & Hgp & _ & Hbg & _).
    rewrite Hgp, Hbg. unfold select. apply length_map. }
  unfold summarize_surface_dists.
  destruct (distances_gt_to_pred r) as [ | d l] eqn:E; [congruence | ].
  cbn [nanmin nanmax bind]. eexists. split; [reflexivity | ].
  cbn [nr_voxels x_equal_greater_than_0m x_equal_greater_than_5m].
  split; [exact Hlen | ]. now apply fractions_sum.
Qed.

Lemma pipeline_fractions_witness :
  exists r,
    compute_distances (line [true; true; false]) (line [false; true; true]) None
      (1%R, 1%R, 1%R) 1 true 5%R = Ok r /\
    exists s,
      summarize_surface_dists nat nat (fun _ _ => NaN) (fun _ => NaN) 1%nat 1%nat r
      = Ok s /\
      nr_voxels _ _ s = length (argwhere (borders_gt r)) /\
      (x_equal_greater_than_0m _ _ s + x_equal_greater_than_5m _ _ s = 1)%R.
Proof.
  eexists. split; [reflexivity | ].
  apply (pipeline_fractions nat nat (fun _ _ => NaN) (fun _ => NaN) 1%nat 1%nat
           (line [true; true; false]) (line [false; true; true]) None
           (1%R, 1%R, 1%R) 1 true 5%R (1, 1, 3)%nat).
  - cbn. repeat constructor.
  - cbn. repeat constructor.
  - reflexivity.
  - discriminate.
Defined.

(** ** Negative distances mark the uncovered target surface *)

(** The map of a region with borders is never negative inside the region. *)
Lemma distance_map_negative_outside (b : vol bool) conn sp (q : idx) :
  any (extract_borders b conn) = true -> inb (shape b) q = true ->
  flt (get NaN (distance_map b conn sp) q) 0 = true ->
  get false b q = false.
Proof.
  intros Hany Hq. rewrite get_distance_map, Hq, Hany. cbn [flt].
  destruct (get false b q); [ | reflexivity].
  intros H. apply Rltb_true_iff in H.
  pose proof (min_dist_nonneg sp q
                (argwhere (invert (invert (extract_borders b conn))))).
  lra.
Qed.

Lemma count_map {A B} (f : B -> bool) (g : A -> B) (l : list A) :
  count f (map g l) = count (fun x => f (g x)) l.
Proof.
  unfold count. induction l as [ | x l IH]; [reflexivity | ]. cbn.
  destruct (f (g x)); cbn; now rewrite IH.
Qed.

(** X11. A negative value of [distances_gt_to_pred] is only ever read at a
    returned target border voxel that lies outside the predicted region;
    so the number of negative values (the numerator of [x_less_than_0mm])
    is at most the number of such voxels. *)
Theorem negative_distances_only_uncovered
  gt pred ez sp conn crop thr sh r g p e :
  has_shape gt sh -> has_shape pred sh ->
  compute_distances gt pred ez sp conn crop thr = Ok r ->
  crop_inputs gt pred ez crop = Ok (g, p, e) ->
  (forall q, In q (argwhere (borders_gt r)) ->
             flt (get NaN (distmap_pred r) q) 0 = true ->
             get false p q = false) /\
  (count (fun d => flt d 0) (distances_gt_to_pred r)
   <= count (fun q => negb (get false p q)) (argwhere (borders_gt r)))%nat.
Proof.
  intros Hg Hp Hr Hc.
  apply compute_distances_Ok in Hr
    as (g' & p' & e' & Hc' & Hany & Hgp & _ & Hbg & _ & _ & Hdp & _).
  rewrite Hc in Hc'. inversion Hc'; subst g' p' e'.
  destruct (crop_inputs_shapes gt pred ez crop sh g p e Hg Hp Hc)
    as (sh1 & Hg1 & Hp1).
  assert (Hpoint : forall q, In q (argwhere (masked_borders g e conn sp thr)) ->
                             flt (get NaN (distance_map p conn sp) q) 0 = true ->
                             get false p q = false).
  { intros q Hq. apply In_argwhere_masked, masked_borders_subset, borders_subset in Hq.
    apply distance_map_negative_outside; [exact Hany | ].
    rewrite <- (has_shape_shape_eq g p sh1 Hg1 Hp1).
    now apply (get_true_inb_shape g sh1). }
  rewrite Hgp, Hbg, Hdp. split; [exact Hpoint | ].
  unfold select. rewrite count_map. apply count_le.
  intros q Hq Hneg. now rewrite (Hpoint q Hq Hneg).
Qed.

Lemma negative_distances_only_uncovered_witness :
  exists r,
    compute_distances (line [true; true; false]) (line [false; true; true]) None
      (1%R, 1%R, 1%R) 1 false 5%R = Ok r /\
    (forall q, In q (argwhere (borders_gt r)) ->
               flt (get NaN (distmap_pred r) q) 0 = true ->
               get false (line [false; true; true]) q = false) /\
    (count (fun d => flt d 0) (distances_gt_to_pred r)
     <= count (fun q => negb (get false (line [false; true; true]) q))
          (argwhere (borders_gt r)))%nat.
Proof.
  eexists. split; [reflexivity | ].
  apply (negative_distances_only_uncovered (line [true; true; false])
           (line [false; true; true]) None (1%R, 1%R, 1%R) 1 false 5%R (1, 1, 3)%nat _
           (line [true; true; false]) (line [false; true; true]) None);
    try reflexivity; cbn; repeat constructor.
Defined.

(** ** Identical regions *)

Lemma crop_inputs_same (m : vol bool) (ez : option (vol bool)) (crop : bool)
  (g p : vol bool) (e : option (vol bool)) :
  crop_inputs m m ez crop = Ok (g, p, e) -> g = p.
Proof.
  destruct crop.
  - rewrite crop_inputs_true_unfold.
    destruct (compute_bounding_box m m _) as [[bmin bmax] | ]; [ | discriminate].
    cbn. intros H. now inversion H.
  - cbn. intros H. now inversion H.
Qed.

Lemma self_distances_zero (m : vol bool) (e : option (vol bool)) conn sp thr d :
  In d (select NaN (distance_map m conn sp) (masked_borders m e conn sp thr)) ->
  d = Fin 0.
Proof.
  unfold select. intros Hd. apply in_map_iff in Hd as (q & <- & Hq).
  apply In_argwhere_masked, masked_borders_subset in Hq.
  rewrite get_distance_map, (get_borders_inb _ _ _ Hq).
  assert (Hany : any (extract_borders m conn) = true)
    by (apply any_borders_iff; eauto).
  rewrite Hany, min_dist_on_borders;
    [ | exact Hq | rewrite shape_extract_borders; now apply get_borders_inb in Hq].
  rewrite (borders_subset _ _ _ Hq). f_equal. lra.
Qed.

(** X12. When the target and the predicted volume are the same, every
    value of both distance lists is 0, with or without cropping and with
    or without an exclusion zone. *)
Theorem identical_regions_zero m ez sp conn crop thr r :
  compute_distances m m ez sp conn crop thr = Ok r ->
  forall d, In d (distances_gt_to_pred r ++ distances_pred_to_gt r) -> d = Fin 0.
Proof.
  intros Hr d Hd.
  apply compute_distances_Ok in Hr
    as (g & p & e & Hc & _ & Hgp & Hpg & _).
  apply crop_inputs_same in Hc. subst p.
  rewrite Hgp, Hpg in Hd.
  apply in_app_or in Hd as [Hd | Hd]; now apply self_distances_zero in Hd.
Qed.

Lemma identical_regions_zero_witness :
  exists r,
    compute_distances (line [false; true; true]) (line [false; true; true]) None
      (1%R, 1%R, 1%R) 1 true 5%R = Ok r /\
    forall d, In d (distances_gt_to_pred r ++ distances_pred_to_gt r) -> d = Fin 0.
Proof.
  eexists. split; [reflexivity | ].
  apply (identical_regions_zero (line [false; true; true]) None
           (1%R, 1%R, 1%R) 1 true 5%R).
  reflexivity.
Defined.

(** ** A larger exclusion distance removes more *)

Lemma masked_borders_threshold_mono (a z : vol bool) conn sp (thr thr' : R) (q : idx) :
  (thr <= thr')%R ->
  get false (masked_borders a (Some z) conn sp thr') q = true ->
  get false (masked_borders a (Some z) conn sp thr) q = true.
Proof.
  intros Hle. rewrite !(masked_borders_rule a z conn sp _ q).
  intros H. apply andb_true_iff in H as [H1 H2]. rewrite H1. cbn [andb].
  destruct (flt (get NaN (exclusion_map z conn sp) q) thr) eqn:E; [ | reflexivity].
  rewrite (flt_mono _ thr thr' Hle E) in H2. discriminate.
Qed.

(** X13. Raising the exclusion distance can only remove measurements: the
    run with the larger threshold returns whenever the run with the
    smaller one does, and each of its distance lists is a sub-multiset of
    the corresponding list of that run. *)
Theorem exclusion_distance_monotone gt pred ez sp conn crop (thr thr' : R) r :
  (thr <= thr')%R ->
  compute_distances gt pred (Some ez) sp conn crop thr = Ok r ->
  exists r',
    compute_distances gt pred (Some ez) sp conn crop thr' = Ok r' /\
    submultiset (distances_gt_to_pred r') (distances_gt_to_pred r) /\
    submultiset (distances_pred_to_gt r') (distances_pred_to_gt r).
Proof.
  intros Hle Hr.
  apply compute_distances_Ok in Hr
    as (g & p & e & Hc & Hany & Hgp & Hpg & _).
  destruct (compute_distances_returns gt pred (Some ez) sp conn crop thr' g p e
              Hc Hany) as [r' Hr'].
  exists r'. split; [exact Hr' | ].
  apply compute_distances_Ok in Hr'
    as (g' & p' & e' & Hc' & _ & Hgp' & Hpg' & _).
  rewrite Hc in Hc'. inversion Hc'; subst g' p' e'.
  assert (He : exists z, e = Some z).
  { destruct crop; [ | cbn in Hc; inversion Hc; eauto].
    rewrite crop_inputs_true_unfold in Hc.
    destruct (compute_bounding_box gt pred _) as [[bmin bmax] | ]; [ | discriminate].
    cbn in Hc. inversion Hc. eauto. }
  destruct He as [z ->].
  rewrite Hgp, Hpg, Hgp', Hpg'. unfold select.
  split; apply submultiset_map, NoDup_incl_submultiset;
    try apply NoDup_argwhere;
    intros q Hq; apply In_argwhere_masked; apply In_argwhere_masked in Hq;
    now apply (masked_borders_threshold_mono _ z conn sp thr thr').
Qed.

Lemma exclusion_distance_monotone_witness :
  exists r,
    compute_distances (line [false; true; true; false]) (line [false; false; true; false])
      (Some (line [true; true; true; false])) (1%R, 1%R, 1%R) 1 true 1%R = Ok r /\
    exists r',
      compute_distances (line [false; true; true; false])
        (line [false; false; true; false])
        (Some (line [true; true; true; false])) (1%R, 1%R, 1%R) 1 true 2%R = Ok r' /\
      submultiset (distances_gt_to_pred r') (distances_gt_to_pred r) /\
      submultiset (distances_pred_to_gt r') (distances_pred_to_gt r).
Proof.
  eexists. split; [reflexivity | ].
  apply (exclusion_distance_monotone (line [false; true; true; false])
           (line [false; false; true; false]) (line [true; true; true; false])
           (1%R, 1%R, 1%R) 1 true 1%R 2%R).
  - lra.
  - reflexivity.
Defined.

(** ** The exclusion outputs *)

(** X14. The two exclusion entries of the returned dictionary are present
    exactly when an exclusion zone was supplied. *)
Theorem exclusion_outputs_presence gt pred ez sp conn crop thr r :
  compute_distances gt pred ez sp conn crop thr = Ok r ->
  (border_exclusion r = None <-> ez = None) /\
  (distmap_exclusion r = None <-> ez = None).
Proof.
  intros Hr.
  apply compute_distances_Ok in Hr
    as (g & p & e & Hc & _ & _ & _ & _ & _ & _ & _ & _ & Hbe & Hde).
  assert (He : e = None <-> ez = None).
  { destruct crop.
    - rewrite crop_inputs_true_unfold in Hc.
      destruct (compute_bounding_box gt pred _) as [[bmin bmax] | ]; [ | discriminate].
      cbn in Hc. inversion Hc. destruct ez; cbn; split; congruence.
    - cbn in Hc. inversion Hc. tauto. }
  assert (Hmap : forall A B (f : A -> B) (o : option A),
                   option_map f o = None <-> o = None).
  { intros A B f [x | ]; cbn; split; congruence. }
  rewrite Hbe, Hde, !Hmap. split; exact He.
Qed.

Lemma exclusion_outputs_presence_witness :
  exists r,
    compute_distances (line [true; true; false]) (line [false; true; true]) None
      (1%R, 1%R, 1%R) 1 true 5%R = Ok r /\
    (border_exclusion r = None <-> @None (vol bool) = None) /\
    (distmap_exclusion r = None <-> @None (vol bool) = None).
Proof.
  eexists. split; [reflexivity | ].
  apply (exclusion_outputs_presence (line [true; true; false])
           (line [false; true; true]) None (1%R, 1%R, 1%R) 1 true 5%R).
  reflexivity.
Defined.

(** ** The summarizer at its edges *)

Section SummarizerEdges.

Variables patient_id lesion_id : Type.
Variable nanquantile : list float -> R -> float.
Variable nanmedian : list float -> float.

(** X15. The summarizer returns a record exactly when the distance list
    is non-empty; on an empty list it raises numpy's ValueError (from
    [np.nanmin]) before any division by the voxel count takes place. *)
Theorem summarize_returns_iff patient lesion sd :
  ((exists s, summarize_surface_dists patient_id lesion_id nanquantile nanmedian
                patient lesion sd = Ok s) <->
   distances_gt_to_pred sd <> []) /\
  (distances_gt_to_pred sd = [] ->
   summarize_surface_dists patient_id lesion_id nanquantile nanmedian
     patient lesion sd = Err ValueError).
Proof.
  unfold summarize_surface_dists.
  destruct (distances_gt_to_pred sd) as [ | d l]; cbn.
  - split; [ | reflexivity]. split; [intros [s H]; discriminate | congruence].
  - split; [ | discriminate]. split; [discriminate | ]. intros _. eauto.
Qed.

(** X16. For every non-empty distance list, not-a-number included, each
    coverage fraction lies between 0 and 1, the fraction below 0 is at
    most the fraction below 5, and the fractions below 5 and from 5 sum to
    at most 1. *)
Theorem coverage_fractions_bounds patient lesion sd s :
  summarize_surface_dists patient_id lesion_id nanquantile nanmedian
    patient lesion sd = Ok s ->
  (0 <= x_less_than_0mm _ _ s <= x_equal_greater_than_0m _ _ s)%R /\
  (0 <= x_equal_greater_than_5m _ _ s)%R /\
  (x_equal_greater_than_0m _ _ s + x_equal_greater_than_5m _ _ s <= 1)%R.
Proof.
  unfold summarize_surface_dists.
  destruct (distances_gt_to_pred sd) as [ | d l] eqn:E; [discriminate | ].
  cbn [nanmin nanmax bind]. intros H. inversion H; subst s. clear H.
  cbn [x_equal_greater_than_0m x_equal_greater_than_5m x_less_than_0mm].
  set (ds := d :: l).
  assert (Hn : (0 < INR (length ds))%R) by (apply lt_0_INR; cbn; lia).
  assert (Hinv : (0 < / INR (length ds))%R) by now apply Rinv_0_lt_compat.
  assert (Hpos : forall n, (0 <= INR n / INR (length ds))%R).
  { intros n. apply Rmult_le_pos; [apply pos_INR | lra]. }
  assert (Hsum : (count (fun d => flt d 5) ds + count (fun d => fge d 5) ds
                  <= length ds)%nat).
  { unfold count. clear. induction ds as [ | x ds IH]; [reflexivity | ].
    cbn. destruct x as [x | | | ]; cbn; try lia.
    unfold Rltb, Rleb. destruct (Rlt_dec x 5), (Rle_dec 5 x); cbn; try lia.
    exfalso. lra. }
  repeat split.
  - apply Hpos.
  - apply Rmult_le_compat_r; [left; now apply Rinv_0_lt_compat | ].
    apply le_INR. apply count_le. intros x _. apply flt_mono. lra.
  - apply Hpos.
  - rewrite <- Rdiv_plus_distr, <- plus_INR.
    apply Rmult_le_reg_r with (r := INR (length ds)); [exact Hn | ].
    unfold Rdiv. rewrite Rmult_assoc, Rinv_l by lra. rewrite Rmult_1_r, Rmult_1_l.
    now apply le_INR.
Qed.

End SummarizerEdges.

Lemma coverage_fractions_bounds_witness :
  exists s,
    summarize_surface_dists nat nat (fun _ _ => NaN) (fun _ => NaN) 1%nat 1%nat
      (dict_of_lists [NaN; Fin 1; PInf] []) = Ok s /\
    (0 <= x_less_than_0mm _ _ s <= x_equal_greater_than_0m _ _ s)%R /\
    (0 <= x_equal_greater_than_5m _ _ s)%R /\
    (x_equal_greater_than_0m _ _ s + x_equal_greater_than_5m _ _ s <= 1)%R.
Proof.
  eexists. split; [reflexivity | ].
  apply (coverage_fractions_bounds nat nat (fun _ _ => NaN) (fun _ => NaN)
           1%nat 1%nat (dict_of_lists [NaN; Fin 1; PInf] [])).
  reflexivity.
Defined.

(** ** An empty target *)

Lemma crop_inputs_gt_cell (gt pred : vol bool) (ez : option (vol bool)) (crop : bool)
  (sh : nat * nat * nat) (g p : vol bool) (e : option (vol bool)) :
  same_shape gt pred ez sh ->
  crop_inputs gt pred ez crop = Ok (g, p, e) ->
  ((exists q, get false g q = true) <-> (exists q, get false gt q = true)).
Proof.
  intros Hsame Hc. destruct crop.
  - destruct (crop_inputs_true_views gt pred ez sh g p e Hsame Hc)
      as (t & sh1 & _ & _ & Htg & _).
    now apply (translated_cell t).
  - cbn in Hc. inversion Hc; subst. tauto.
Qed.

Lemma masked_borders_of_empty (a : vol bool) (e : option (vol bool)) conn sp thr :
  (forall q, get false a q = false) ->
  argwhere (masked_borders a e conn sp thr) = [].
Proof.
  intros Ha. destruct (argwhere (masked_borders a e conn sp thr)) as [ | q l] eqn:E;
    [reflexivity | ].
  assert (Hq : In q (argwhere (masked_borders a e conn sp thr)))
    by (rewrite E; now left).
  apply In_argwhere_masked, masked_borders_subset, borders_subset in Hq.
  rewrite Ha in Hq. discriminate.
Qed.

(** X17. An empty target with a non-empty prediction: the run returns an
    empty [distances_gt_to_pred] and a [distances_pred_to_gt] that holds
    only +infinity, and the summarizer then raises ValueError on the
    returned dictionary. *)
Theorem empty_target_propagates
  (patient_id lesion_id : Type) (nanquantile : list float -> R -> float)
  (nanmedian : list float -> float) (patient : patient_id) (lesion : lesion_id)
  gt pred ez sp conn crop thr sh r :
  same_shape gt pred ez sh ->
  any gt = false ->
  compute_distances gt pred ez sp conn crop thr = Ok r ->
  distances_gt_to_pred r = [] /\
  (forall d, In d (distances_pred_to_gt r) -> d = PInf) /\
  summarize_surface_dists patient_id lesion_id nanquantile nanmedian
    patient lesion r = Err ValueError.
Proof.
  intros Hsame Hgt Hr.
  apply compute_distances_Ok in Hr
    as (g & p & e & Hc & _ & Hgp & Hpg & _).
  assert (Hg : forall q, get false g q = false).
  { intros q. destruct (get false g q) eqn:E; [ | reflexivity].
    destruct (proj1 (crop_inputs_gt_cell gt pred ez crop sh g p e Hsame Hc)
                (ex_intro _ q E)) as [q' Hq'].
    assert (any gt = true)
      by (apply (any_iff_cell gt sh); [apply Hsame | eauto]).
    congruence. }
  assert (Hnil : distances_gt_to_pred r = []).
  { rewrite Hgp. unfold select. now rewrite masked_borders_of_empty. }
  split; [exact Hnil | ]. split.
  - intros d Hd. rewrite Hpg in Hd. unfold select in Hd.
    apply in_map_iff in Hd as (q & <- & Hq).
    apply In_argwhere_masked, masked_borders_subset, borders_subset in Hq.
    destruct Hsame as (Hsg & Hsp & _).
    destruct (crop_inputs_shapes gt pred ez crop sh g p e Hsg Hsp Hc)
      as (sh1 & Hg1 & Hp1).
    rewrite get_distance_map.
    rewrite (has_shape_shape_eq g p sh1 Hg1 Hp1).
    rewrite (get_true_inb_shape p sh1 q Hp1 Hq).
    assert (Hany : any (extract_borders g conn) = false).
    { destruct (any (extract_borders g conn)) eqn:E; [ | reflexivity].
      apply any_borders_iff in E as (q' & Hq'). apply borders_subset in Hq'.
      rewrite Hg in Hq'. discriminate. }
    now rewrite Hany.
  - unfold summarize_surface_dists. now rewrite Hnil.
Qed.

Lemma empty_target_propagates_witness :
  exists r,
    compute_distances (line [false; false; false]) (line [false; true; true]) None
      (1%R, 1%R, 1%R) 1 true 5%R = Ok r /\
    distances_gt_to_pred r = [] /\
    (forall d, In d (distances_pred_to_gt r) -> d = PInf) /\
    summarize_surface_dists nat nat (fun _ _ => NaN) (fun _ => NaN) 1%nat 1%nat r
    = Err ValueError.
Proof.
  eexists. split; [reflexivity | ].
  apply (empty_target_propagates nat nat (fun _ _ => NaN) (fun _ => NaN) 1%nat 1%nat
           (line [false; false; false]) (line [false; true; true]) None
           (1%R, 1%R, 1%R) 1 true 5%R (1, 1, 3)%nat).
  - cbn. repeat constructor.
  - reflexivity.
  - reflexivity.
Defined.
